(** * scripts/replace_emoji.py: the emoji-to-ASCII normaliser

    A shallow embedding of the script and the proofs of its specified
    behaviour.  The development follows the script top-down:

    - [Py]: the [str] and [dict] operations of Python that the script calls;
    - [Table]: the constant tables ([EXCLUDE_DIRS], [MAP], [REMOVE_CHARS],
      [TEXT_EXTS]);
    - [Host]: an ASCII fragment of the interpreter, to run the script;
    - [looks_text], [replace_in_text], [main]: the three functions;
    - the theorems, one group per component, and the script run on
      examples.

    Python's [str] is a sequence of code points, modelled as [list Z].
    What the script takes from the interpreter's Unicode tables
    ([unicodedata.name], [str.isalnum], [str.upper], [str.lower], the
    white space of [str.split]), from [os.path] and from the UTF-8 codec
    is a section variable; what is assumed about them is stated where it
    is used. *)

From Stdlib Require Import String Ascii DecimalString.
From Stdlib Require Import ZArith List Bool Lia.
From Stdlib.Strings Require Import Byte.
Import ListNotations.
Local Open Scope Z_scope.

(** ** Python values *)

(** A [str] is the list of its code points; a [bytes] object the list of
    its bytes. *)
Definition str := list Z.
Definition bytes := list byte.

Definition chr (a : ascii) : Z := Z.of_N (N_of_ascii a).

(** [lit "abc"] is the Python literal ["abc"] (ASCII literals only). *)
Definition lit (s : String.string) : str :=
  map chr (String.list_ascii_of_string s).
Arguments lit s%_string.

(** The error monad: [None] is an uncaught exception. *)
Definition bind {A B} (m : option A) (k : A -> option B) : option B :=
  match m with
  | Some a => k a
  | None => None
  end.

Notation "x <- m ;; k" := (bind m (fun x => k))
  (at level 61, m at next level, right associativity).

Module Py.

(** [a == b] on [str]. *)
Fixpoint eqb (a b : str) : bool :=
  match a, b with
  | [], [] => true
  | x :: a', y :: b' => (x =? y) && eqb a' b'
  | _, _ => false
  end.

(** [s.startswith(p)]. *)
Fixpoint startswith (s p : str) : bool :=
  match p, s with
  | [], _ => true
  | _ :: _, [] => false
  | y :: p', x :: s' => (x =? y) && startswith s' p'
  end.

(** [k in s] for two [str]: [k] occurs in [s] as a substring. *)
Fixpoint contains (k s : str) : bool :=
  startswith s k ||
  match s with
  | [] => false
  | _ :: s' => contains k s'
  end.

(** [s.replace(old, new)] for a non-empty [old]: the occurrences are
    found from the left and do not overlap.  [skip] counts the
    characters of a matched occurrence that are still to be passed. *)
Fixpoint replace_from (old new : str) (skip : nat) (s : str) : str :=
  match s with
  | [] => []
  | c :: s' =>
      match skip with
      | S k => replace_from old new k s'
      | O =>
          if startswith s old
          then new ++ replace_from old new (Nat.pred (length old)) s'
          else c :: replace_from old new 0 s'
      end
  end.

(** [s.replace(old, new)]; with an empty [old], [new] is put before
    every character and at the end. *)
Definition replace (old new s : str) : str :=
  match old with
  | [] => new ++ flat_map (fun c => c :: new) s
  | _ :: _ => replace_from old new 0 s
  end.

(** [''.join(parts)]. *)
Definition join (parts : list str) : str := concat parts.

(** [sep.join(parts)]. *)
Fixpoint join_with (sep : str) (parts : list str) : str :=
  match parts with
  | [] => []
  | [p] => p
  | p :: rest => p ++ sep ++ join_with sep rest
  end.

(** [s.split()]: the maximal runs of non-space characters, [cur] being
    the run under construction. *)
Fixpoint split_from (isspace : Z -> bool) (cur s : str) : list str :=
  match s with
  | [] => match cur with [] => [] | _ => [cur] end
  | c :: s' =>
      if isspace c
      then match cur with
           | [] => split_from isspace [] s'
           | _ => cur :: split_from isspace [] s'
           end
      else split_from isspace (cur ++ [c]) s'
  end.

Definition split (isspace : Z -> bool) (s : str) : list str :=
  split_from isspace [] s.

(** [x in xs] for a set or tuple of [str]. *)
Definition mem (x : str) (xs : list str) : bool := existsb (eqb x) xs.

(** A [dict] from [str] to [str], in insertion order. *)
Definition dict := list (str * str).

(** [d.get(k)]; [d[k]] when the key is there. *)
Fixpoint get (d : dict) (k : str) : option str :=
  match d with
  | [] => None
  | (k', v) :: d' => if eqb k' k then Some v else get d' k
  end.

(** [d[k] = v]: an existing key keeps its place and takes the new value,
    a new key goes last. *)
Fixpoint set (d : dict) (k v : str) : dict :=
  match d with
  | [] => [(k, v)]
  | (k', v') :: d' =>
      if eqb k' k then (k', v) :: d' else (k', v') :: set d' k v
  end.

(** The value of a display [{k1: v1, k2: v2, ...}]. *)
Definition of_display (items : list (str * str)) : dict :=
  fold_left (fun d kv => set d (fst kv) (snd kv)) items [].

End Py.

(** ** The constant tables *)

Module Table.

Definition EXCLUDE_DIRS : list str :=
  map lit [".git"; "node_modules"; "build"; "dist"; ".next"; ".svelte-kit";
           "out"; "venv"; ".venv"; "target"; "coverage"; "tmp"]%string.

(** The display of [MAP] as the source has it, duplicates included. *)
Definition MAP_display : list (String.string * String.string) :=
 [("[OK]", "[OK]"); ("[X]", "[X]"); ("[WARN]", "[WARN]"); ("[LAUNCH]", "[LAUNCH]");
  ("[DONE]", "[DONE]"); ("[LIST]", "[LIST]"); ("[TOOL]", "[TOOL]"); ("[INFO]", "[INFO]");
  ("[WEB]", "[WEB]"); ("[GOAL]", "[GOAL]"); ("[BUILD]", "[BUILD]"); ("[PC]", "[PC]");
  ("[DESIGN]", "[DESIGN]"); ("[OFFICE]", "[OFFICE]"); ("[$]", "[$]"); ("[TAKE]", "[TAKE]");
  ("[TEST]", "[TEST]"); ("[GAME]", "[GAME]"); ("[DOCS]", "[DOCS]"); ("[FIRE]", "[FIRE]");
  ("[TOOLS]", "[TOOLS]"); ("*", "*"); ("[MAP]", "[MAP]"); ("[BOOK]", "[BOOK]");
  ("[CLEAN]", "[CLEAN]"); ("[FIND]", "[FIND]"); ("[IDEA]", "[IDEA]"); ("[FOLDER]", "[FOLDER]");
  ("[WAIT]", "[WAIT]"); ("[ALERT]", "[ALERT]"); ("[BLOCK]", "[BLOCK]"); ("[STATS]", "[STATS]");
  ("[PIN]", "[PIN]"); ("[BRAIN]", "[BRAIN]"); ("[ROLES]", "[ROLES]"); ("[BUG]", "[BUG]");
  ("[KEY]", "[KEY]"); ("[WAVE]", "[WAVE]"); ("[INBOX]", "[INBOX]"); ("[PKG]", "[PKG]");
  ("[STOP]", "[STOP]"); ("[LOCK]", "[LOCK]"); ("[FREE]", "[FREE]"); ("[FAST]", "[FAST]");
  ("[123]", "[123]"); ("[$$]", "[$$]"); ("[TAG]", "[TAG]"); ("[ADMIN]", "[ADMIN]");
  ("->", "->"); ("[VIEW]", "[VIEW]"); ("<<", "<<"); ("[WIP]", "[WIP]");
  ("<->", "<->"); ("[OUT]", "[OUT]"); ("+", "+"); ("[CAM]", "[CAM]");
  ("[SHIELD]", "[SHIELD]"); ("[FLAG]", "[FLAG]"); ("[SET]", "[SET]"); ("[FILES]", "[FILES]");
  ("[FOLDER]", "[FOLDER]"); ("[DOC]", "[DOC]"); ("TM", "TM"); ("[UP]", "[UP]");
  ("[HANDSHAKE]", "[HANDSHAKE]"); ("[ANTENNA]", "[ANTENNA]"); ("[LINK]", "[LINK]"); ("[TEAM]", "[TEAM]");
  ("[USER]", "[USER]"); ("[BANK]", "[BANK]"); ("[FUEL]", "[FUEL]"); ("[DOC]", "[DOC]");
  ("[WOMAN]", "[WOMAN]"); ("[MAN]", "[MAN]"); ("[PICK]", "[PICK]"); ("[DOWN]", "[DOWN]");
  ("[WRITE]", "[WRITE]"); ("[VOTE]", "[VOTE]"); ("[BOOM]", "[BOOM]"); ("[PC]", "[PC]");
  ("[MAIL]", "[MAIL]"); ("[GOGGLES]", "[GOGGLES]"); ("[HAMMER]", "[HAMMER]"); ("[BOT]", "[BOT]");
  ("[DISK]", "[DISK]"); ("[?]", "[?]"); ("<<", "<<"); ("<", "<");
  (">", ">"); (">>", ">>"); ("[SCALES]", "[SCALES]"); ("[SWORDS]", "[SWORDS]");
  ("[TIME]", "[TIME]"); ("[BOOKMARK]", "[BOOKMARK]"); ("||", "||"); ("[PHONE]", "[PHONE]");
  ("[CRYSTAL]", "[CRYSTAL]"); ("[COURT]", "[COURT]"); ("[TROPHY]", "[TROPHY]"); ("[UP]", "[UP]");
  ("[PLUG]", "[PLUG]"); ("[CARD]", "[CARD]"); ("[PHONE]", "[PHONE]"); ("[SPARK]", "[SPARK]");
  ("[ALARM]", "[ALARM]"); ("[CHAT]", "[CHAT]"); ("[LOCK]", "[LOCK]"); ("[10]", "[10]");
  ("*", "*"); ("[PA]", "[PA]"); ("[JOKER]", "[JOKER]"); ("[LIGHTS]", "[LIGHTS]");
  ("[PUZZLE]", "[PUZZLE]"); ("[SHUFFLE]", "[SHUFFLE]"); ("[REPEAT]", "[REPEAT]"); ("[DNA]", "[DNA]");
  ("[COMPASS]", "[COMPASS]"); ("[PIN]", "[PIN]"); ("[TELESCOPE]", "[TELESCOPE]"); ("o", "o");
  ("[TIMER]", "[TIMER]"); ("[WEB]", "[WEB]"); ("[PEN]", "[PEN]"); ("[TRASH]", "[TRASH]");
  ("*", "*"); ("->", "->"); ("[ABC]", "[ABC]"); ("<->", "<->");
  ("o", "o"); ("o", "o"); ("o", "o"); ("o", "o");
  ("o", "o"); ("[COIN]", "[COIN]"); ("[FACTORY]", "[FACTORY]"); ("[NEW]", "[NEW]");
  ("[BRICK]", "[BRICK]"); ("[SAT]", "[SAT]"); ("[EARTH]", "[EARTH]"); ("[BRIDGE]", "[BRIDGE]");
  ("[FX]", "[FX]"); ("[DICE]", "[DICE]"); ("[CAM]", "[CAM]"); ("[MENU]", "[MENU]");
  ("~", "~"); ("[UNLOCK]", "[UNLOCK]"); ("[SKULL]", "[SKULL]"); ("[SUN]", "[SUN]");
  ("[MOON]", "[MOON]"); ("[OUTBOX]", "[OUTBOX]"); ("[SHRUG]", "[SHRUG]"); ("<-", "<-");
  ("[HOME]", "[HOME]"); ("[ ]", "[ ]"); ("[GREEN]", "[GREEN]"); ("[BANDAGE]", "[BANDAGE]");
  ("[BLUE]", "[BLUE]"); ("[ID]", "[ID]")]%string.

Definition MAP : Py.dict :=
  Py.of_display (map (fun kv => (lit (fst kv), lit (snd kv))) MAP_display).

Definition VS16 : Z := 0xFE0F.

Definition REMOVE_CHARS : list str := [[VS16]].

Definition TEXT_EXTS : list str :=
  map lit [".md"; ".txt"; ".ts"; ".tsx"; ".js"; ".jsx"; ".json"; ".jsonc";
           ".svelte"; ".html"; ".css"; ".scss"; ".sass"; ".less";
           ".yaml"; ".yml"; ".toml"; ".ini"; ".conf";
           ".sh"; ".bash"; ".zsh"; ".fish";
           ".py"; ".rb"; ".go"; ".rs"; ".java"; ".kt"; ".swift";
           ".c"; ".h"; ".cc"; ".cpp"; ".m"; ".mm";
           ".csv"]%string.

(** [bin_exts], local to [looks_text]. *)
Definition bin_exts : list str :=
  map lit [".png"; ".jpg"; ".jpeg"; ".gif"; ".webp"; ".pdf"; ".woff";
           ".woff2"; ".ttf"; ".otf"; ".ico"; ".mp4"; ".mp3"]%string.

End Table.

(** ** An ASCII fragment of the interpreter

    Concrete functions to run the script on examples: the [str] methods
    restricted to ASCII (on the other characters they are the identity or
    [false], which is not what Python does), [posixpath.splitext], an
    excerpt of the Unicode name table and a UTF-8 codec. *)

Module Host.

Definition between (lo c hi : Z) : bool := (lo <=? c) && (c <=? hi).

Definition isalnum (c : Z) : bool :=
  between 48 c 57 || between 65 c 90 || between 97 c 122.

Definition isspace (c : Z) : bool := between 9 c 13 || between 28 c 32.

Definition upper (c : Z) : str :=
  if between 97 c 122 then [c - 32] else [c].

Definition lower (s : str) : str :=
  map (fun c => if between 65 c 90 then c + 32 else c) s.

(** [s.rfind(c)] for a character [c]: [i] is the index of the head of
    [s], [last] the last index found. *)
Fixpoint rfind_from (c : Z) (s : str) (i last : Z) : Z :=
  match s with
  | [] => last
  | x :: s' => rfind_from c s' (i + 1) (if x =? c then i else last)
  end.

Definition rfind (c : Z) (s : str) : Z := rfind_from c s 0 (-1).

(** [posixpath.splitext]: the extension starts at the last dot of the
    last component, unless only dots come before it there. *)
Definition splitext (p : str) : str * str :=
  let sepIndex := rfind 47 p in
  let dotIndex := rfind 46 p in
  if sepIndex <? dotIndex then
    let leading :=
      firstn (Z.to_nat (dotIndex - (sepIndex + 1)))
             (skipn (Z.to_nat (sepIndex + 1)) p) in
    if existsb (fun c => negb (c =? 46)) leading
    then (firstn (Z.to_nat dotIndex) p, skipn (Z.to_nat dotIndex) p)
    else (p, [])
  else (p, []).

(** Some lines of the Unicode name table; U+1F02C is not assigned. *)
Definition ud_name (c : Z) : option str :=
  if c =? 0x41 then Some (lit "LATIN CAPITAL LETTER A")
  else if c =? 0x2122 then Some (lit "TRADE MARK SIGN")
  else if c =? 0x2139 then Some (lit "INFORMATION SOURCE")
  else if c =? 0x2192 then Some (lit "RIGHTWARDS ARROW")
  else if c =? 0x2705 then Some (lit "WHITE HEAVY CHECK MARK")
  else if c =? 0x1F455 then Some (lit "T-SHIRT")
  else if c =? 0x1F680 then Some (lit "ROCKET")
  else None.

(** A name table with a name that no character of Unicode has: its
    first word has no letter and no digit. *)
Definition ud_name_odd (c : Z) : option str :=
  if c =? 0x2600 then Some (lit "-- SUN") else None.

Definition code (b : byte) : Z := Z.of_N (Byte.to_N b).

Definition byte_of (x : Z) : byte :=
  match Byte.of_N (Z.to_N x) with
  | Some b => b
  | None => x00
  end.

(** A continuation byte [10xxxxxx]. *)
Definition cont (x : Z) : bool := between 0x80 x 0xBF.

Definition low6 (x : Z) : Z := Z.land x 0x3F.

(** Strict UTF-8 decoding, without the translation of line ends. *)
Fixpoint utf8_decode (bs : bytes) : option str :=
  match bs with
  | [] => Some []
  | b0 :: r0 =>
      let x0 := code b0 in
      if x0 <? 0x80 then s <- utf8_decode r0 ;; Some (x0 :: s)
      else
        match r0 with
        | [] => None
        | b1 :: r1 =>
            let x1 := code b1 in
            if between 0xC2 x0 0xDF then
              if cont x1
              then s <- utf8_decode r1 ;;
                   Some (Z.lor (Z.shiftl (Z.land x0 0x1F) 6) (low6 x1) :: s)
              else None
            else
              match r1 with
              | [] => None
              | b2 :: r2 =>
                  let x2 := code b2 in
                  if between 0xE0 x0 0xEF then
                    let cp := Z.lor (Z.shiftl (Z.land x0 0x0F) 12)
                                (Z.lor (Z.shiftl (low6 x1) 6) (low6 x2)) in
                    if cont x1 && cont x2 && (0x800 <=? cp)
                       && negb (between 0xD800 cp 0xDFFF)
                    then s <- utf8_decode r2 ;; Some (cp :: s)
                    else None
                  else
                    match r2 with
                    | [] => None
                    | b3 :: r3 =>
                        let x3 := code b3 in
                        let cp :=
                          Z.lor (Z.shiftl (Z.land x0 0x07) 18)
                            (Z.lor (Z.shiftl (low6 x1) 12)
                               (Z.lor (Z.shiftl (low6 x2) 6) (low6 x3))) in
                        if between 0xF0 x0 0xF4 && cont x1 && cont x2
                           && cont x3 && between 0x10000 cp 0x10FFFF
                        then s <- utf8_decode r3 ;; Some (cp :: s)
                        else None
                    end
              end
        end
  end.

Definition utf8_encode_char (c : Z) : bytes :=
  let tail (sh : Z) := byte_of (Z.lor 0x80 (low6 (Z.shiftr c sh))) in
  if c <? 0x80 then [byte_of c]
  else if c <? 0x800 then [byte_of (Z.lor 0xC0 (Z.shiftr c 6)); tail 0]
  else if c <? 0x10000
       then [byte_of (Z.lor 0xE0 (Z.shiftr c 12)); tail 6; tail 0]
       else [byte_of (Z.lor 0xF0 (Z.shiftr c 18)); tail 12; tail 6; tail 0].

Definition utf8_encode (s : str) : bytes := flat_map utf8_encode_char s.

End Host.

Import Table.

Notation "' pat <- m ;; k" :=
  (bind m (fun x => match x with pat => k end))
  (at level 61, pat pattern, m at next level, right associativity).

(** Proves that a list of numbers has no number twice. *)
Ltac no_duplicates :=
  repeat (constructor;
          [ let H := fresh in
            intros H; simpl in H;
            repeat (destruct H as [H|H]; [discriminate|]); destruct H
          | ]);
  constructor.

(** ** The script *)

Section Script.

(** *** What the script takes from the interpreter *)

(** [unicodedata.name(ch)]; [None] when it raises [ValueError]. *)
Variable ud_name : Z -> option str.

(** [c.isalnum()], [c.isspace()] (the separators of [str.split()]) and
    [c.upper()] of a one-character [str]; the upper case of one
    character can be several characters. *)
Variable isalnum : Z -> bool.
Variable isspace : Z -> bool.
Variable upper : Z -> str.

(** [os.path.splitext(path)] and [s.lower()]. *)
Variable splitext : str -> str * str.
Variable lower : str -> str.

(** The text layer of [open(path, "r", encoding="utf-8",
    errors="strict")] and of [open(path, "w", encoding="utf-8")]:
    [decode] is [None] when reading raises. *)
Variable decode : bytes -> option str.
Variable encode : str -> bytes.

(** [ROOT], the absolute path of the directory above the script. *)
Variable ROOT : str.

(** *** looks_text *)

(** [rb] is what [open(path, "rb")] gives: the content of the file, or
    [None] when opening or reading raises. *)
Definition looks_text (path : str) (rb : option bytes) : bool :=
  let ext := snd (splitext path) in
  if Py.mem (lower ext) TEXT_EXTS then true
  else if Py.mem (lower ext) bin_exts then false
  else match rb with
       | Some content =>
           let chunk := firstn 2048 content in
           if existsb (Byte.eqb x00) chunk then false else true
       | None => false
       end.

(** *** replace_in_text *)

(** [s.upper()]. *)
Definition str_upper (s : str) : str := flat_map upper s.

Definition fallback (ch : Z) : option str :=
  match ud_name ch with
  | None => Some [ch]
  | Some name =>
      (* [name.split()[0]] raises [IndexError] on a name without a word *)
      token <- hd_error (Py.split isspace name) ;;
      let token := str_upper (filter isalnum token) in
      let token := match token with [] => lit "SYM" | _ :: _ => token end in
      Some (lit "[" ++ token ++ lit "]")
  end.

(** The code point test of the last [elif]. *)
Definition pictographic (code : Z) : bool :=
  ((0x1F000 <=? code) && (code <=? 0x1FAFF))
  || ((0x2600 <=? code) && (code <=? 0x27BF))
  || ((0x2300 <=? code) && (code <=? 0x23FF))
  || ((0x2190 <=? code) && (code <=? 0x21FF))
  || ((code =? 0x2122) || (code =? 0x2139)).

(** What one iteration of [for ch in text] appends to [out_chars]: one
    [str], or nothing. *)
Definition emit (ch : Z) : option (list str) :=
  match Py.get MAP [ch] with
  | Some v => Some [v]
  | None =>
      if Py.mem [ch] REMOVE_CHARS then Some []
      else if pictographic ch then (t <- fallback ch ;; Some [t])
      else Some [[ch]]
  end.

Fixpoint scan (text : str) (out_chars : list str) : option (list str) :=
  match text with
  | [] => Some out_chars
  | ch :: rest => e <- emit ch ;; scan rest (out_chars ++ e)
  end.

(** The first two loops. *)
Definition remove_pass (text : str) : str :=
  fold_left (fun text rc => Py.replace rc [] text) REMOVE_CHARS text.

Definition map_pass (text : str) : str :=
  fold_left
    (fun text kv =>
       if Py.contains (fst kv) text
       then Py.replace (fst kv) (snd kv) text
       else text)
    MAP text.

Definition replace_in_text (text : str) : option str :=
  match text with
  | [] => Some text
  | _ :: _ =>
      let text := remove_pass text in
      let text := map_pass text in
      out_chars <- scan text [] ;;
      Some (Py.join out_chars)
  end.

(** *** main *)

(** A file on the disk: its content ([None] when opening it for reading
    raises), whether opening it for writing and writing it succeed, and
    how many times it was opened for writing. *)
Record inode :=
  Inode { idata : option bytes; iwritable : bool; iwrites : nat }.

(** The disk: the files, by number. *)
Definition disk := list inode.

(** A directory as [os.walk] lists it: its name, the names of [files],
    each with the number of the file that opening the path reaches, and
    the subdirectories.  Two names with one number are two paths to one
    file: hard links, or a symbolic link and its target.  A number past
    the end of the disk is a symbolic link to nothing.  A symbolic link
    to a directory, which [os.walk] lists and does not enter, has no part
    in a run and is left out. *)
#[warnings="-register-all"]
Inductive tree :=
  Dir (name : str) (files : list (str * nat)) (dirs : list tree).

Definition dname (t : tree) : str := match t with Dir name _ _ => name end.

(** The local variables of [main] that outlive an iteration, and what
    was printed. *)
Record state := State { changed : nat; scanned : nat; stdout : list str }.

(** [os.path.join(a, b)]. *)
Definition os_path_join (a b : str) : str :=
  if Py.startswith b (lit "/") then b
  else match a with
       | [] => a ++ b
       | _ :: _ =>
           if Py.startswith (rev a) (lit "/") then a ++ b
           else a ++ lit "/" ++ b
       end.

(** What [open(path, "rb")] gives for a path to the file [i]. *)
Definition open_rb (d : disk) (i : nat) : option bytes :=
  n <- nth_error d i ;; idata n.

(** [f.read()] of the text file at a path to the file [i]. *)
Definition read_text (d : disk) (i : nat) : option str :=
  content <- open_rb d i ;; decode content.

(** The disk with the file [i] replaced. *)
Fixpoint put (d : disk) (i : nat) (n : inode) : disk :=
  match d, i with
  | [], _ => []
  | _ :: d', O => n :: d'
  | m :: d', S i' => m :: put d' i' n
  end.

(** [open(path, "w")] and [f.write(text)] at a path to the file [i],
    which was read before: they raise when the file cannot be written. *)
Definition write_text (d : disk) (i : nat) (text : str) : option disk :=
  match nth_error d i with
  | Some n =>
      if iwritable n
      then Some (put d i {| idata := Some (encode text);
                            iwritable := true;
                            iwrites := S (iwrites n) |})
      else None
  | None => None
  end.

(** [str(n)] of a count. *)
Definition str_of_nat (n : nat) : str :=
  lit (NilEmpty.string_of_uint (Nat.to_uint n)).

(** The body of [for fn in files] on the name [fn], a path to the file
    [i]: [root] is the path of the directory, [rel] its components below
    [ROOT], so that the path of the file relative to [ROOT] is the
    components joined by [/]. *)
Definition visit (root : str) (rel : list str) (e : str * nat) (d : disk)
  (s : state) : option (disk * state) :=
  let '(fn, i) := e in
  let path := os_path_join root fn in
  if negb (looks_text path (open_rb d i)) then Some (d, s)
  else
    match read_text d i with
    | None => Some (d, s)
    | Some text =>
        new_text <- replace_in_text text ;;
        let s := {| changed := changed s; scanned := S (scanned s);
                    stdout := stdout s |} in
        if negb (Py.eqb new_text text) then
          d' <- write_text d i new_text ;;
          let rel := Py.join_with (lit "/") (rel ++ [fn]) in
          Some (d',
                {| changed := S (changed s); scanned := scanned s;
                   stdout := stdout s ++ [lit "Rewrote: " ++ rel] |})
        else Some (d, s)
    end.

Fixpoint visit_files (root : str) (rel : list str) (fs : list (str * nat))
  (d : disk) (s : state) : option (disk * state) :=
  match fs with
  | [] => Some (d, s)
  | e :: rest =>
      '(d1, s1) <- visit root rel e d s ;;
      visit_files root rel rest d1 s1
  end.

(** The filter of [dirs[:] = ...]. *)
Definition kept (d : str) : bool :=
  negb (Py.mem d EXCLUDE_DIRS) && negb (Py.startswith d (lit ".")).

(** [os.walk] top-down with the loop body of [main]: the files of a
    directory first, then the subdirectories that were kept. *)
Fixpoint walk (root : str) (rel : list str) (t : tree) (d : disk)
  (s : state) {struct t} : option (disk * state) :=
  match t with
  | Dir _ fs ds =>
      '(d1, s1) <- visit_files root rel fs d s ;;
      (fix descend (ds : list tree) (d : disk) (s : state)
         : option (disk * state) :=
         match ds with
         | [] => Some (d, s)
         | sub :: rest =>
             '(d1, s1) <-
               (if kept (dname sub)
                then walk (os_path_join root (dname sub))
                          (rel ++ [dname sub]) sub d s
                else Some (d, s)) ;;
             descend rest d1 s1
         end) ds d1 s1
  end.

(** The loop over the subdirectories, by name. *)
Fixpoint descend (root : str) (rel : list str) (ds : list tree)
  (d : disk) (s : state) : option (disk * state) :=
  match ds with
  | [] => Some (d, s)
  | sub :: rest =>
      '(d1, s1) <-
        (if kept (dname sub)
         then walk (os_path_join root (dname sub)) (rel ++ [dname sub])
                sub d s
         else Some (d, s)) ;;
      descend root rel rest d1 s1
  end.

(** [main()] on the directory [t] at [ROOT] and the disk [d]: the disk
    afterwards, the lines printed and the value returned; [None] when an
    exception leaves [main]. *)
Definition main (t : tree) (d : disk) : option (disk * list str * Z) :=
  '(d', s) <-
    walk ROOT [] t d {| changed := 0; scanned := 0; stdout := [] |} ;;
  let summary :=
    lit "Done. Updated " ++ str_of_nat (changed s)
    ++ lit " files (scanned " ++ str_of_nat (scanned s) ++ lit ")." in
  Some (d', stdout s ++ [summary], 0).

(** *** Specification vocabulary *)

(** The transformer as the specification summarises it: delete the
    characters of the Removal Set, then replace every character of the
    pictographic ranges by its fallback. *)
Definition range_fallback (ch : Z) : option str :=
  if pictographic ch then fallback ch else Some [ch].

Fixpoint for_each (f : Z -> option str) (text : str) : option (list str) :=
  match text with
  | [] => Some []
  | ch :: rest => p <- f ch ;; ps <- for_each f rest ;; Some (p :: ps)
  end.

Definition delete_then_fallback (text : str) : option str :=
  let text := filter (fun ch => negb (Py.mem [ch] REMOVE_CHARS)) text in
  pieces <- for_each range_fallback text ;;
  Some (Py.join pieces).

(** [c] matches [[A-Z0-9]]. *)
Definition upper_or_digit (c : Z) : bool :=
  Host.between 65 c 90 || Host.between 48 c 57.

(** [t] is a token matching [[A-Z0-9]+] between square brackets. *)
Definition bracket_token (t : str) : bool :=
  match t with
  | c :: r =>
      match rev r with
      | d :: m =>
          (c =? 91) && (d =? 93)
          && negb (Nat.eqb (length m) 0) && forallb upper_or_digit m
      | [] => false
      end
  | [] => false
  end.

(** What is assumed of the interpreter: the names of the Unicode name
    table are ASCII and have a word, and on ASCII the [str] methods are
    those of [Host]. *)
Definition is_ascii (c : Z) : Prop := 0 <= c < 128.

Record unicode_tables : Prop := {
  names_ascii : forall c n, ud_name c = Some n -> Forall is_ascii n;
  names_word :
    forall c n, ud_name c = Some n -> exists x, In x n /\ isspace x = false;
  ascii_isalnum : forall x, is_ascii x -> isalnum x = Host.isalnum x;
  ascii_isspace : forall x, is_ascii x -> isspace x = Host.isspace x;
  ascii_upper : forall x, is_ascii x -> upper x = Host.upper x
}.

(** A character that the transformer leaves as it is. *)
Definition fixed_char (ch : Z) : Prop :=
  ch <> VS16 /\ range_fallback ch = Some [ch].

(** A directory with a hole in the place of one subdirectory, at any
    depth below the root. *)
Inductive ctx :=
| Here (name : str) (files : list (str * nat)) (before after : list tree)
| Below (name : str) (files : list (str * nat))
    (before : list tree) (inner : ctx) (after : list tree).

Fixpoint plug (c : ctx) (sub : tree) : tree :=
  match c with
  | Here name fs before after => Dir name fs (before ++ sub :: after)
  | Below name fs before inner after =>
      Dir name fs (before ++ plug inner sub :: after)
  end.

(** A path that the walk comes to: the path of the directory, its
    components below [ROOT], and the name with the number of the file. *)
Definition target := (str * list str * (str * nat))%type.

Definition inode_of (x : target) : nat := snd (snd x).

(** The paths that [os.walk] comes to with the pruning of [main], in its
    order. *)
Fixpoint walked (root : str) (rel : list str) (t : tree) : list target :=
  match t with
  | Dir _ fs ds =>
      map (fun e => (root, rel, e)) fs
      ++ flat_map
           (fun sub =>
              if kept (dname sub)
              then walked (os_path_join root (dname sub))
                     (rel ++ [dname sub]) sub
              else [])
           ds
  end.

(** The loop body on a list of paths, one after the other. *)
Fixpoint visit_all (W : list target) (d : disk) (s : state)
  : option (disk * state) :=
  match W with
  | [] => Some (d, s)
  | (root, rel, e) :: rest =>
      '(d1, s1) <- visit root rel e d s ;;
      visit_all rest d1 s1
  end.

(** The paths that count as scanned on the disk [d]: eligible and
    read. *)
Definition scannable (d : disk) (x : target) : bool :=
  let '(root, _, (fn, i)) := x in
  looks_text (os_path_join root fn) (open_rb d i)
  && match read_text d i with
     | Some _ => true
     | None => false
     end.

(** The paths to rewrite on the disk [d]: scanned, with a transformed
    text that differs. *)
Definition rewritable (d : disk) (x : target) : bool :=
  let '(root, _, (fn, i)) := x in
  looks_text (os_path_join root fn) (open_rb d i)
  && match read_text d i with
     | Some text =>
         match replace_in_text text with
         | Some new_text => negb (Py.eqb new_text text)
         | None => false
         end
     | None => false
     end.

(** The line printed for a rewritten path. *)
Definition rewrote_line (x : target) : str :=
  let '(_, rel, (fn, _)) := x in
  lit "Rewrote: " ++ Py.join_with (lit "/") (rel ++ [fn]).

(** [s'] is the state [s] after the loop body has run on the paths [W],
    each of them met with the content it has on the disk [d]. *)
Definition state_after (d : disk) (s : state) (W : list target)
  (s' : state) : Prop :=
  changed s' = (changed s + length (filter (rewritable d) W))%nat
  /\ scanned s' = (scanned s + length (filter (scannable d) W))%nat
  /\ stdout s' = stdout s ++ map rewrote_line (filter (rewritable d) W).

(** How many times the files of the disk were opened for writing. *)
Definition writes (d : disk) : nat := list_sum (map iwrites d).

(** The text that the script writes for the file at a path, as it is on
    the disk [d], is read back as it was written. *)
Definition codec_round_trip (d : disk) (x : target) : Prop :=
  forall text new_text,
    read_text d (inode_of x) = Some text ->
    replace_in_text text = Some new_text ->
    decode (encode new_text) = Some new_text.

(** The file [i] holds a text that the transformer returns as it is, if
    it holds a text. *)
Definition settled (d : disk) (i : nat) : Prop :=
  forall text, read_text d i = Some text -> replace_in_text text = Some text.

(** The loop body has nothing to write at the path [x]. *)
Definition quiet (d : disk) (x : target) : Prop :=
  let '(root, _, (fn, i)) := x in
  looks_text (os_path_join root fn) (open_rb d i) = false
  \/ settled d i.

#[local] Set Default Proof Using "Type".

(** Unfolds the character classes, for [lia]. *)
Ltac classes :=
  unfold upper_or_digit, pictographic, Host.isalnum, Host.isspace,
    Host.between, is_ascii, VS16 in *.

(** ** Python's [str] operations *)

Lemma eqb_eq (a b : str) : Py.eqb a b = true <-> a = b.
Proof.
  revert b; induction a as [|x a IH]; intros [|y b]; simpl;
    try (split; [discriminate | congruence]); try (split; reflexivity).
  rewrite andb_true_iff, Z.eqb_eq, IH.
  split; [intros [-> ->]; reflexivity | intros [= -> ->]; auto].
Qed.

Lemma eqb_refl (a : str) : Py.eqb a a = true.
Proof. apply eqb_eq; reflexivity. Qed.

Lemma eqb_neq (a b : str) : Py.eqb a b = false <-> a <> b.
Proof.
  rewrite <- eqb_eq. destruct (Py.eqb a b); split; congruence.
Qed.

Lemma startswith_skipn (p s : str) :
  Py.startswith s p = true -> s = p ++ skipn (length p) s.
Proof.
  revert s; induction p as [|y p IH]; intros [|x s]; simpl;
    try discriminate; auto.
  rewrite andb_true_iff, Z.eqb_eq. intros [-> H]. f_equal. auto.
Qed.

Lemma replace_from_skip (old new : str) (s : str) (k : nat) :
  Py.replace_from old new k s = Py.replace_from old new 0 (skipn k s).
Proof.
  revert k; induction s as [|c s IH]; intros [|k]; simpl; auto.
Qed.

Lemma replace_from_same (y : Z) (old' : str) (n : nat) :
  forall s, (length s <= n)%nat ->
            Py.replace_from (y :: old') (y :: old') 0 s = s.
Proof.
  induction n as [|n IH]; intros [|c s] Hn; simpl in Hn; try lia; auto.
  cbn [Py.replace_from].
  destruct (Py.startswith (c :: s) (y :: old')) eqn:E.
  - cbn [length Nat.pred]. rewrite replace_from_skip, IH.
    + symmetry. apply (startswith_skipn (y :: old') (c :: s) E).
    + rewrite length_skipn. lia.
  - f_equal. apply IH. lia.
Qed.

(** Replacing a key by itself changes nothing. *)
Lemma replace_same (k s : str) : Py.replace k k s = s.
Proof.
  destruct k as [|y k]; simpl.
  - induction s as [|c s IH]; simpl; congruence.
  - apply (replace_from_same y k (length s)). lia.
Qed.

(** Replacing a character by the empty [str] deletes it. *)
Lemma replace_char_empty (c : Z) (s : str) :
  Py.replace [c] [] s = filter (fun x => negb (x =? c)) s.
Proof.
  unfold Py.replace.
  induction s as [|x s IH]; auto.
  cbn [Py.replace_from Py.startswith filter length Nat.pred].
  replace (Py.startswith s []) with true by (destruct s; reflexivity).
  rewrite andb_true_r, <- IH. destruct (x =? c); reflexivity.
Qed.

Lemma split_from_Forall (P : Z -> Prop) (s : str) :
  forall cur, Forall P cur -> Forall P s ->
              Forall (Forall P) (Py.split_from isspace cur s).
Proof.
  induction s as [|c s IH]; intros cur Hcur Hs; simpl.
  - destruct cur; auto.
  - inversion_clear Hs.
    destruct (isspace c); [destruct cur|]; auto.
    apply IH; auto. apply Forall_app; auto.
Qed.

Lemma split_from_cur (s : str) :
  forall cur, cur <> [] -> Py.split_from isspace cur s <> [].
Proof.
  induction s as [|c s IH]; intros cur Hcur; simpl.
  - destruct cur; congruence.
  - destruct (isspace c); [destruct cur; congruence|].
    apply IH. destruct cur; discriminate.
Qed.

(** A [str] with a character that is not white space has a first word. *)
Lemma split_word (s : str) :
  (exists x, In x s /\ isspace x = false) -> Py.split isspace s <> [].
Proof.
  unfold Py.split. generalize (@nil Z) as cur.
  induction s as [|c s IH]; intros cur [x [Hin Hx]]; [destruct Hin|].
  simpl. destruct (isspace c) eqn:E.
  - destruct Hin as [->|Hin]; [congruence|].
    destruct cur; [|discriminate]. apply IH; eauto.
  - apply split_from_cur. destruct cur; discriminate.
Qed.

(** ** The tables *)

Lemma get_In (d : Py.dict) (k v : str) :
  Py.get d k = Some v -> In (k, v) d.
Proof.
  induction d as [|[k' v'] d IH]; simpl; [discriminate|].
  destruct (Py.eqb k' k) eqn:E; auto.
  apply eqb_eq in E. intros [= ->]. subst. auto.
Qed.

Lemma MAP_display_identity (k v : string) :
  In (k, v) MAP_display -> v = k.
Proof.
  assert (H : forallb (fun kv => String.eqb (fst kv) (snd kv)) MAP_display
              = true) by (vm_compute; reflexivity).
  rewrite forallb_forall in H. intros Hin.
  apply H in Hin. apply String.eqb_eq in Hin. simpl in Hin. auto.
Qed.

Lemma MAP_identity (k v : str) : In (k, v) MAP -> v = k.
Proof.
  assert (H : forallb (fun kv => Py.eqb (fst kv) (snd kv)) MAP = true)
    by (vm_compute; reflexivity).
  rewrite forallb_forall in H. intros Hin.
  apply H in Hin. apply eqb_eq in Hin. simpl in Hin. auto.
Qed.

(** The one-character keys of [MAP] are outside the pictographic ranges
    and are not the variation selector. *)
Lemma MAP_char_keys (c : Z) (v : str) :
  In ([c], v) MAP -> pictographic c = false /\ c <> VS16.
Proof.
  assert (H : forallb
                (fun kv => match fst kv with
                           | [c] => negb (pictographic c) && negb (c =? VS16)
                           | _ => true
                           end) MAP = true)
    by (vm_compute; reflexivity).
  rewrite forallb_forall in H. intros Hin.
  apply H in Hin. simpl in Hin.
  rewrite andb_true_iff, !negb_true_iff, Z.eqb_neq in Hin. exact Hin.
Qed.

Lemma mem_REMOVE_CHARS (c : Z) : Py.mem [c] REMOVE_CHARS = (c =? VS16).
Proof.
  unfold Py.mem, REMOVE_CHARS. simpl.
  rewrite andb_true_r, orb_false_r. reflexivity.
Qed.

(** ** The passes of replace_in_text *)

Lemma remove_pass_filter (text : str) :
  remove_pass text = filter (fun ch => negb (ch =? VS16)) text.
Proof. unfold remove_pass, REMOVE_CHARS. simpl. apply replace_char_empty. Qed.

Lemma map_pass_over (d : Py.dict) :
  (forall k v, In (k, v) d -> v = k) ->
  forall text,
    fold_left
      (fun text kv =>
         if Py.contains (fst kv) text
         then Py.replace (fst kv) (snd kv) text
         else text) d text = text.
Proof.
  induction d as [|[k v] d IH]; intros Hd text; simpl; auto.
  rewrite (Hd k v) by (left; reflexivity).
  rewrite replace_same.
  destruct (Py.contains k text); apply IH; intros; apply Hd; right; auto.
Qed.

Lemma map_pass_id (text : str) : map_pass text = text.
Proof. apply map_pass_over, MAP_identity. Qed.

Lemma scan_acc (text : str) :
  forall out,
    scan text out = (es <- scan text [] ;; Some (out ++ es)).
Proof.
  induction text as [|ch rest IH]; intros out; simpl.
  - rewrite app_nil_r. reflexivity.
  - destruct (emit ch) as [e|]; simpl; auto.
    rewrite (IH (out ++ e)), (IH e).
    destruct (scan rest []); simpl; auto.
    rewrite app_assoc. reflexivity.
Qed.

(** Away from the variation selector an iteration emits the fallback of
    the ranges. *)
Lemma emit_range_fallback (ch : Z) :
  ch <> VS16 -> emit ch = (t <- range_fallback ch ;; Some [t]).
Proof.
  intros Hch. unfold emit, range_fallback.
  destruct (Py.get MAP [ch]) as [v|] eqn:E.
  - apply get_In in E.
    rewrite (MAP_identity _ _ E).
    destruct (MAP_char_keys _ _ E) as [-> _]. reflexivity.
  - rewrite mem_REMOVE_CHARS.
    apply Z.eqb_neq in Hch. rewrite Hch.
    destruct (pictographic ch); reflexivity.
Qed.

Lemma scan_for_each (text : str) :
  Forall (fun ch => ch <> VS16) text ->
  scan text [] = for_each range_fallback text.
Proof.
  induction 1 as [|ch rest Hch _ IH]; simpl; auto.
  rewrite (emit_range_fallback ch Hch).
  destruct (range_fallback ch) as [t|]; simpl; auto.
  rewrite scan_acc, IH.
  destruct (for_each range_fallback rest); reflexivity.
Qed.

Lemma filter_VS16 (text : str) :
  Forall (fun ch => ch <> VS16) (filter (fun ch => negb (ch =? VS16)) text).
Proof.
  apply Forall_forall. intros x Hx.
  apply filter_In in Hx. destruct Hx as [_ Hx].
  apply negb_true_iff, Z.eqb_neq in Hx. auto.
Qed.

Lemma replace_in_text_simple (text : str) :
  replace_in_text text = delete_then_fallback text.
Proof.
  unfold delete_then_fallback.
  rewrite (filter_ext _ (fun ch => negb (ch =? VS16)))
    by (intros; rewrite mem_REMOVE_CHARS; reflexivity).
  destruct text as [|c text]; [reflexivity|].
  unfold replace_in_text.
  rewrite map_pass_id, remove_pass_filter, scan_for_each
    by apply filter_VS16.
  reflexivity.
Qed.

(** C10. Every entry of [MAP], as displayed in the source and as stored
    in the dictionary, maps its key to itself; so the loop over
    [MAP.items()] returns its text unchanged and the lookup [MAP[ch]] of
    the last loop gives [ch] back; and [replace_in_text] is the function
    that deletes the characters of [REMOVE_CHARS] and then replaces each
    character of the pictographic ranges by its fallback. *)
Theorem MAP_is_identity_and_transform_is_delete_then_fallback :
  (forall k v, In (k, v) MAP_display -> v = k)
  /\ (forall k v, In (k, v) MAP -> v = k)
  /\ (forall text, map_pass text = text)
  /\ (forall ch v, Py.get MAP [ch] = Some v -> v = [ch])
  /\ (forall text, replace_in_text text = delete_then_fallback text).
Proof.
  split; [exact MAP_display_identity|].
  split; [exact MAP_identity|].
  split; [exact map_pass_id|].
  split; [|exact replace_in_text_simple].
  intros ch v H. apply get_In in H. apply (MAP_identity _ _ H).
Qed.

(** ** fallback *)

Lemma fallback_unnamed (ch : Z) : ud_name ch = None -> fallback ch = Some [ch].
Proof. intros H. unfold fallback. rewrite H. reflexivity. Qed.

Lemma upper_of_alnum (x : Z) :
  Host.isalnum x = true ->
  Forall (fun y => upper_or_digit y = true) (Host.upper x).
Proof.
  intros H. unfold Host.upper.
  destruct (Host.between 97 x 122) eqn:E; constructor; auto; classes; lia.
Qed.

Section Tables.

Hypothesis tables : unicode_tables.

Lemma split_ascii (s : str) :
  Forall is_ascii s -> Py.split isspace s = Py.split Host.isspace s.
Proof using tables.
  unfold Py.split. generalize (@nil Z) as cur.
  induction s as [|c s IH]; intros cur Hs; simpl; auto.
  inversion_clear Hs.
  rewrite (ascii_isspace tables) by assumption.
  rewrite !IH by assumption. reflexivity.
Qed.

Lemma token_ascii (w : str) :
  Forall is_ascii w ->
  str_upper (filter isalnum w) = flat_map Host.upper (filter Host.isalnum w).
Proof using tables.
  unfold str_upper.
  induction 1 as [|x w Hx _ IH]; simpl; auto.
  rewrite (ascii_isalnum tables) by assumption.
  destruct (Host.isalnum x); simpl; auto.
  rewrite (ascii_upper tables) by assumption. congruence.
Qed.

(** On a character with a name the fallback is computed by the ASCII
    methods, and never raises. *)
Lemma fallback_named (ch : Z) (name : str) :
  ud_name ch = Some name ->
  exists w ws,
    Py.split Host.isspace name = w :: ws
    /\ fallback ch =
         Some (lit "[" ++
               match flat_map Host.upper (filter Host.isalnum w) with
               | [] => lit "SYM"
               | _ :: _ => flat_map Host.upper (filter Host.isalnum w)
               end ++ lit "]").
Proof using tables.
  intros H. unfold fallback. rewrite H.
  pose proof (names_ascii tables _ _ H) as Hascii.
  pose proof (split_word name (names_word tables _ _ H)) as Hword.
  pose proof (split_from_Forall is_ascii name [] (Forall_nil _) Hascii)
    as Hsplit.
  fold (Py.split isspace name) in Hsplit.
  rewrite (split_ascii name Hascii) in *.
  destruct (Py.split Host.isspace name) as [|w ws]; [congruence|].
  exists w, ws. split; [reflexivity|].
  inversion_clear Hsplit. simpl. rewrite token_ascii by assumption.
  reflexivity.
Qed.

Lemma token_chars (w : str) :
  Forall (fun y => upper_or_digit y = true)
         (flat_map Host.upper (filter Host.isalnum w)).
Proof.
  induction w as [|x w IH]; simpl; auto.
  destruct (Host.isalnum x) eqn:E; simpl; auto.
  apply Forall_app. split; auto. apply upper_of_alnum; auto.
Qed.

Lemma bracket_token_intro (tok : str) :
  tok <> [] -> Forall (fun y => upper_or_digit y = true) tok ->
  bracket_token (lit "[" ++ tok ++ lit "]") = true.
Proof.
  intros Hne Htok. change (lit "[") with [91]. change (lit "]") with [93].
  simpl. rewrite rev_app_distr. simpl.
  rewrite length_rev. destruct tok as [|y tok]; [congruence|]. simpl.
  change (rev tok ++ [y]) with (rev (y :: tok)).
  apply forallb_forall. intros x Hx. apply in_rev in Hx.
  rewrite Forall_forall in Htok. auto.
Qed.

Lemma fallback_bracket (ch : Z) (name : str) :
  ud_name ch = Some name ->
  exists t, fallback ch = Some t /\ bracket_token t = true.
Proof using tables.
  intros H. destruct (fallback_named ch name H) as (w & ws & _ & ->).
  eexists. split; [reflexivity|].
  pose proof (token_chars w) as Hw.
  apply bracket_token_intro;
    destruct (flat_map Host.upper (filter Host.isalnum w));
    try discriminate; auto.
  repeat constructor.
Qed.


Lemma bracket_token_chars (t : str) :
  bracket_token t = true ->
  Forall (fun x => pictographic x = false /\ x <> VS16) t.
Proof.
  destruct t as [|c r]; [discriminate|]. simpl.
  destruct (rev r) as [|d m] eqn:E; [discriminate|].
  rewrite !andb_true_iff, !Z.eqb_eq, forallb_forall.
  intros [[[-> ->] _] Hm].
  assert (Hr : r = rev m ++ [93])
    by (rewrite <- (rev_involutive r), E; reflexivity).
  subst r. constructor; [split; [reflexivity | discriminate]|].
  apply Forall_app. split.
  - apply Forall_forall. intros x Hx. apply in_rev, Hm in Hx.
    classes. lia.
  - constructor; [split; [reflexivity | discriminate] | constructor].
Qed.

Lemma pictographic_not_VS16 (ch : Z) : pictographic ch = true -> ch <> VS16.
Proof. classes. lia. Qed.

Lemma outside_ranges_fixed (ch : Z) :
  pictographic ch = false -> ch <> VS16 -> fixed_char ch.
Proof.
  intros H Hch. split; auto. unfold range_fallback. rewrite H. reflexivity.
Qed.

Lemma range_fallback_pieces (ch : Z) :
  ch <> VS16 ->
  exists t, range_fallback ch = Some t /\ Forall fixed_char t.
Proof using tables.
  intros Hch. unfold range_fallback.
  destruct (pictographic ch) eqn:Hp.
  - destruct (ud_name ch) as [name|] eqn:Hn.
    + destruct (fallback_bracket ch name Hn) as (t & -> & Ht).
      exists t. split; auto.
      apply bracket_token_chars in Ht.
      eapply Forall_impl; [|exact Ht].
      intros x [? ?]. apply outside_ranges_fixed; auto.
    + exists [ch]. rewrite (fallback_unnamed ch Hn). split; auto.
      repeat constructor; auto.
      unfold range_fallback. rewrite Hp. apply fallback_unnamed, Hn.
  - exists [ch]. split; auto.
    repeat constructor; auto. apply outside_ranges_fixed; auto.
Qed.

Lemma for_each_pieces (text : str) :
  Forall (fun ch => ch <> VS16) text ->
  exists ps,
    for_each range_fallback text = Some ps /\ Forall fixed_char (Py.join ps).
Proof using tables.
  induction 1 as [|ch rest Hch _ (ps & IH & Hps)]; simpl.
  - exists []. split; auto.
  - destruct (range_fallback_pieces ch Hch) as (t & -> & Ht).
    rewrite IH. exists (t :: ps). split; auto.
    simpl. apply Forall_app. auto.
Qed.

(** [replace_in_text] returns on every text, and what it returns is made
    of characters that it leaves as they are. *)
Lemma replace_in_text_total (text : str) :
  exists out, replace_in_text text = Some out /\ Forall fixed_char out.
Proof using tables.
  rewrite replace_in_text_simple. unfold delete_then_fallback.
  rewrite (filter_ext _ (fun ch => negb (ch =? VS16)))
    by (intros; rewrite mem_REMOVE_CHARS; reflexivity).
  destruct (for_each_pieces _ (filter_VS16 text)) as (ps & -> & Hps).
  exists (Py.join ps). auto.
Qed.

End Tables.

Lemma for_each_fixed (text : str) :
  Forall fixed_char text ->
  for_each range_fallback text = Some (map (fun ch => [ch]) text).
Proof.
  induction 1 as [|ch rest [_ Hch] _ IH]; simpl; auto.
  rewrite Hch, IH. reflexivity.
Qed.

Lemma join_singletons (text : str) :
  Py.join (map (fun ch => [ch]) text) = text.
Proof. induction text as [|ch rest IH]; simpl; congruence. Qed.

(** A text of characters that the transformer leaves as they are is
    returned as it is. *)
Lemma replace_in_text_fixed (text : str) :
  Forall fixed_char text -> replace_in_text text = Some text.
Proof.
  intros H. rewrite replace_in_text_simple. unfold delete_then_fallback.
  rewrite forallb_filter_id.
  - rewrite (for_each_fixed text H). simpl. rewrite join_singletons.
    reflexivity.
  - apply forallb_forall. intros x Hx.
    rewrite Forall_forall in H. destruct (H x Hx) as [Hne _].
    rewrite mem_REMOVE_CHARS. apply negb_true_iff, Z.eqb_neq, Hne.
Qed.

(** ** The transformer *)

(** C1, as the code has it.  For a character of the pictographic ranges
    that is not a key of [MAP], an iteration of the last loop emits one
    segment: the character itself when it has no Unicode name, and
    otherwise a token of upper-case letters and digits, not empty, between
    square brackets ([[SYM]] is such a token). *)
Theorem emit_pictographic (tables : unicode_tables) (ch : Z) :
  pictographic ch = true ->
  Py.get MAP [ch] = None ->
  (ud_name ch = None -> emit ch = Some [[ch]])
  /\ (forall name, ud_name ch = Some name ->
        exists t, emit ch = Some [t] /\ bracket_token t = true).
Proof.
  intros Hp Hk.
  assert (E : emit ch = (t <- fallback ch ;; Some [t])).
  { unfold emit. rewrite Hk, mem_REMOVE_CHARS, Hp.
    apply pictographic_not_VS16, Z.eqb_neq in Hp. rewrite Hp. reflexivity. }
  rewrite E. split.
  - intros Hn. rewrite (fallback_unnamed ch Hn). reflexivity.
  - intros name Hn.
    destruct (fallback_bracket tables ch name Hn) as (t & -> & Ht).
    exists t. auto.
Qed.

(** C2. [replace_in_text] returns on every text, and applying it to what
    it returned gives the same text again. *)
Theorem replace_in_text_idempotent (tables : unicode_tables) (text : str) :
  exists out,
    replace_in_text text = Some out /\ replace_in_text out = Some out.
Proof.
  destruct (replace_in_text_total tables text) as (out & H & Hout).
  exists out. split; auto. apply replace_in_text_fixed, Hout.
Qed.

(** C3. What [replace_in_text] returns has no variation selector-16. *)
Theorem replace_in_text_no_VS16 (tables : unicode_tables) (text : str) :
  exists out, replace_in_text text = Some out /\ ~ In VS16 out.
Proof.
  destruct (replace_in_text_total tables text) as (out & H & Hout).
  exists out. split; auto. intros Hin.
  rewrite Forall_forall in Hout. destruct (Hout _ Hin) as [Hne _]. auto.
Qed.

(** C4. The rocket U+1F680, whose Unicode name is ROCKET, is not a key of
    [MAP], and the text made of it and of the variation selector is
    turned into [[ROCKET]], where no variation selector is left. *)
Theorem rocket_example (tables : unicode_tables) :
  ud_name 0x1F680 = Some (lit "ROCKET") ->
  Py.get MAP [0x1F680] = None
  /\ replace_in_text [0x1F680; 0xFE0F] = Some (lit "[ROCKET]")
  /\ ~ In VS16 (lit "[ROCKET]").
Proof.
  intros Hn. split; [vm_compute; reflexivity|]. split.
  - rewrite replace_in_text_simple. unfold delete_then_fallback.
    change (filter _ [0x1F680; 0xFE0F]) with [0x1F680].
    cbn [for_each]. unfold range_fallback.
    change (pictographic 0x1F680) with true. cbv iota.
    destruct (fallback_named tables _ _ Hn) as (w & ws & Hw & ->).
    vm_compute in Hw. injection Hw as <- <-. vm_compute. reflexivity.
  - intros H. vm_compute in H.
    repeat (destruct H as [H|H]; [discriminate|]). destruct H.
Qed.

(** C9. A text without a character of [REMOVE_CHARS], without an
    occurrence of a key of [MAP] and without a character of the
    pictographic ranges is returned as it is. *)
Theorem replace_in_text_pass_through (text : str) :
  (forall ch, In ch text -> Py.mem [ch] REMOVE_CHARS = false) ->
  (forall k v, In (k, v) MAP -> Py.contains k text = false) ->
  (forall ch, In ch text -> pictographic ch = false) ->
  replace_in_text text = Some text.
Proof.
  intros Hrm _ Hpict. apply replace_in_text_fixed, Forall_forall.
  intros ch Hin. apply outside_ranges_fixed; auto.
  specialize (Hrm ch Hin). rewrite mem_REMOVE_CHARS in Hrm.
  apply Z.eqb_neq, Hrm.
Qed.

(** ** The classifier *)

Lemma NUL_in_prefix (n : nat) (content : bytes) :
  existsb (Byte.eqb x00) (firstn n content) = true
  <-> exists i, (i < n)%nat /\ nth_error content i = Some x00.
Proof.
  revert content; induction n as [|n IH]; intros [|b content]; simpl.
  - split; [discriminate | intros (i & Hi & _); lia].
  - split; [discriminate | intros (i & Hi & _); lia].
  - split; [discriminate | intros ([|i] & _ & Hi); discriminate].
  - rewrite orb_true_iff, IH. split.
    + intros [Hb | (i & Hi & Hnth)].
      * apply Byte.byte_dec_bl in Hb. subst b.
        exists 0%nat. split; [lia | reflexivity].
      * exists (S i). split; [lia | exact Hnth].
    + intros ([|i] & Hi & Hnth); simpl in Hnth.
      * injection Hnth as ->. left. reflexivity.
      * right. exists i. split; [lia | exact Hnth].
Qed.

(** C5. [looks_text] is true when the lower-cased extension is in
    [TEXT_EXTS]; else false when it is in [bin_exts]; else false when the
    file cannot be read, and otherwise false exactly when one of the first
    2048 bytes of the file is NUL, the bytes after them having no part in
    the answer. *)
Theorem looks_text_cases (path : str) (rb : option bytes) :
  let ext := lower (snd (splitext path)) in
  (Py.mem ext TEXT_EXTS = true -> looks_text path rb = true)
  /\ (Py.mem ext TEXT_EXTS = false -> Py.mem ext bin_exts = true ->
      looks_text path rb = false)
  /\ (Py.mem ext TEXT_EXTS = false -> Py.mem ext bin_exts = false ->
      looks_text path None = false
      /\ forall content,
          (looks_text path (Some content) = false
           <-> exists i, (i < 2048)%nat /\ nth_error content i = Some x00)
          /\ (looks_text path (Some content) = true
              <-> forall i, (i < 2048)%nat -> nth_error content i <> Some x00)
          /\ looks_text path (Some content)
             = looks_text path (Some (firstn 2048 content))).
Proof.
  intros ext. unfold looks_text. fold ext.
  split; [intros ->; reflexivity|].
  split; [intros -> ->; reflexivity|].
  intros -> ->. split; [reflexivity|]. intros content.
  rewrite firstn_firstn, Nat.min_id.
  pose proof (NUL_in_prefix 2048 content) as H.
  destruct (existsb (Byte.eqb x00) (firstn 2048 content)).
  - repeat split; auto; try discriminate.
    + intros _. apply H; reflexivity.
    + intros Hno. destruct (proj1 H eq_refl) as (i & Hi & Hnth).
      destruct (Hno i Hi Hnth).
  - repeat split; auto; try discriminate.
    + intros Hex. apply H in Hex. discriminate.
    + intros _ i Hi Hnth.
      assert (false = true) by (apply H; eauto). discriminate.
Qed.

(** ** The walker *)

(** C6. An eligible file whose reading as strict UTF-8 fails is passed
    over: the disk is left as it was, no file being opened for writing,
    the counters and the printed lines are unchanged, and the loop goes
    on with the files that follow. *)
Theorem unreadable_file_skipped (root : str) (rel : list str) (fn : str)
  (i : nat) (d : disk) (s : state) :
  looks_text (os_path_join root fn) (open_rb d i) = true ->
  read_text d i = None ->
  visit root rel (fn, i) d s = Some (d, s)
  /\ forall rest,
      visit_files root rel ((fn, i) :: rest) d s =
      visit_files root rel rest d s.
Proof.
  intros Hlooks Hread.
  assert (E : visit root rel (fn, i) d s = Some (d, s))
    by (unfold visit; rewrite Hlooks, Hread; reflexivity).
  split; auto. intros rest. cbn [visit_files]. rewrite E. reflexivity.
Qed.


(** *** The disk *)

Lemma length_put (d : disk) :
  forall i n, length (put d i n) = length d.
Proof.
  induction d as [|m d IH]; intros [|i] n; simpl; auto.
Qed.

Lemma nth_error_put_other (d : disk) :
  forall i j n, i <> j -> nth_error (put d i n) j = nth_error d j.
Proof.
  induction d as [|m d IH]; intros [|i] [|j] n H; simpl; auto;
    try congruence.
Qed.

Lemma nth_error_put_same (d : disk) :
  forall i n m, nth_error d i = Some m -> nth_error (put d i n) i = Some n.
Proof.
  induction d as [|m0 d IH]; intros [|i] n m H; simpl in *;
    try discriminate; eauto.
Qed.

Lemma writes_put (d : disk) :
  forall i n m,
    nth_error d i = Some m ->
    (writes (put d i n) + iwrites m = writes d + iwrites n)%nat.
Proof.
  unfold writes.
  induction d as [|m0 d IH]; intros [|i] n m H; simpl in *;
    try discriminate.
  - injection H as ->. lia.
  - specialize (IH i n m H). lia.
Qed.

(** What a write that succeeds does. *)
Lemma write_text_Some (d : disk) (i : nat) (text : str) (d' : disk) :
  write_text d i text = Some d' ->
  exists n,
    nth_error d i = Some n /\ iwritable n = true
    /\ d' = put d i {| idata := Some (encode text); iwritable := true;
                       iwrites := S (iwrites n) |}.
Proof.
  unfold write_text. destruct (nth_error d i) as [n|]; [|discriminate].
  destruct (iwritable n) eqn:E; [|discriminate].
  intros [= <-]. eauto.
Qed.

(** The cases of the loop body when it returns. *)
Lemma visit_Some (root : str) (rel : list str) (fn : str) (i : nat)
  (d : disk) (s : state) (d' : disk) (s' : state) :
  visit root rel (fn, i) d s = Some (d', s') ->
  (d' = d /\ rewritable d (root, rel, (fn, i)) = false
   /\ changed s' = changed s /\ stdout s' = stdout s
   /\ scanned s' =
      (scanned s + length (filter (scannable d) [(root, rel, (fn, i))]))%nat)
  \/ (exists text new_text,
         looks_text (os_path_join root fn) (open_rb d i) = true
         /\ read_text d i = Some text
         /\ replace_in_text text = Some new_text
         /\ new_text <> text
         /\ write_text d i new_text = Some d'
         /\ changed s' = S (changed s) /\ scanned s' = S (scanned s)
         /\ stdout s' = stdout s ++ [rewrote_line (root, rel, (fn, i))]).
Proof.
  unfold visit, rewritable, scannable. cbn [filter].
  destruct (looks_text _ _) eqn:Hl; cbn [negb andb].
  - destruct (read_text d i) as [text|] eqn:Hr.
    + destruct (replace_in_text text) as [new_text|] eqn:Hn;
        [|discriminate].
      cbn [bind]. destruct (Py.eqb new_text text) eqn:E; cbn [negb].
      * intros [= <- <-]. left. simpl. repeat split; lia.
      * destruct (write_text d i new_text) as [d1|] eqn:Hw;
          [|discriminate].
        cbn [bind]. intros [= <- <-]. right.
        exists text, new_text. apply eqb_neq in E. simpl.
        repeat split; auto.
    + intros [= <- <-]. left. simpl. repeat split; lia.
  - intros [= <- <-]. left. simpl. repeat split; lia.
Qed.

(** The loop body changes no other file than the one at its path, and
    creates and deletes none. *)
Lemma visit_frame (root : str) (rel : list str) (fn : str) (i : nat)
  (d : disk) (s : state) (d' : disk) (s' : state) :
  visit root rel (fn, i) d s = Some (d', s') ->
  length d' = length d
  /\ forall j, j <> i -> nth_error d' j = nth_error d j.
Proof.
  intros H. apply visit_Some in H.
  destruct H as [(-> & _) | (text & new_text & _ & _ & _ & _ & Hw & _)];
    auto.
  apply write_text_Some in Hw. destruct Hw as (n & _ & _ & ->).
  split; [apply length_put|].
  intros j Hj. apply nth_error_put_other. congruence.
Qed.

Lemma visit_all_frame (W : list target) :
  forall d s d' s',
    visit_all W d s = Some (d', s') ->
    length d' = length d
    /\ forall j, ~ In j (map inode_of W) -> nth_error d' j = nth_error d j.
Proof.
  induction W as [|[[root rel] [fn i]] W IH]; intros d s d' s' H.
  - injection H as <- <-. auto.
  - cbn [visit_all] in H.
    destruct (visit root rel (fn, i) d s) as [[d1 s1]|] eqn:Hv;
      [|discriminate].
    cbn [bind] in H.
    destruct (visit_frame _ _ _ _ _ _ _ _ Hv) as [Hlen1 Hfr1].
    destruct (IH d1 s1 d' s' H) as [Hlen Hfr].
    split; [congruence|]. intros j Hj. simpl in Hj.
    rewrite Hfr, Hfr1; auto.
Qed.

(** *** The walk as a loop over the paths walked *)

Lemma visit_all_app (W1 W2 : list target) :
  forall d s,
    visit_all (W1 ++ W2) d s =
    ('(d1, s1) <- visit_all W1 d s ;; visit_all W2 d1 s1).
Proof.
  induction W1 as [|[[root rel] e] W1 IH]; intros d s; [reflexivity|].
  cbn [app visit_all].
  destruct (visit root rel e d s) as [[d1 s1]|]; simpl; auto.
Qed.

Lemma visit_files_walked (root : str) (rel : list str)
  (fs : list (str * nat)) :
  forall d s,
    visit_files root rel fs d s =
    visit_all (map (fun e => (root, rel, e)) fs) d s.
Proof.
  induction fs as [|e fs IH]; intros d s; [reflexivity|].
  cbn [visit_files map visit_all].
  destruct (visit root rel e d s) as [[d1 s1]|]; simpl; auto.
Qed.

Lemma tree_induction (P : tree -> Prop) :
  (forall name fs ds, Forall P ds -> P (Dir name fs ds)) ->
  forall t, P t.
Proof.
  intros H. fix IH 1. intros [name fs ds]. apply H.
  induction ds as [|d ds IHds]; constructor; auto.
Qed.

Lemma walk_Dir (root : str) (rel : list str) (name : str)
  (fs : list (str * nat)) (ds : list tree) (d : disk) (s : state) :
  walk root rel (Dir name fs ds) d s =
  ('(d1, s1) <- visit_files root rel fs d s ;; descend root rel ds d1 s1).
Proof.
  simpl. destruct (visit_files root rel fs d s) as [[d1 s1]|]; simpl; auto.
  revert d1 s1. induction ds as [|sub ds IH]; intros d1 s1; simpl; auto.
  destruct (if kept (dname sub) then _ else _) as [[d2 s2]|]; simpl; auto.
Qed.

(** [walk] is the loop body on the paths of [walked], in their order. *)
Lemma walk_walked (t : tree) :
  forall root rel d s,
    walk root rel t d s = visit_all (walked root rel t) d s.
Proof.
  induction t as [name fs ds IH] using tree_induction.
  intros root rel d s. rewrite walk_Dir. cbn [walked].
  rewrite visit_all_app, visit_files_walked.
  destruct (visit_all _ d s) as [[d1 s1]|]; simpl; auto.
  revert d1 s1. induction IH as [|sub ds Hsub _ IHds]; intros d1 s1;
    [reflexivity|].
  cbn [descend flat_map]. rewrite visit_all_app.
  destruct (kept (dname sub)).
  - rewrite Hsub.
    destruct (visit_all _ d1 s1) as [[d2 s2]|]; simpl; auto.
  - simpl. auto.
Qed.

Lemma dname_plug (c : ctx) (d1 d2 : tree) :
  dname (plug c d1) = dname (plug c d2).
Proof. destruct c; reflexivity. Qed.

Lemma flat_map_middle {A B} (f : A -> list B) (before after : list A)
  (x : A) :
  flat_map f (before ++ x :: after)
  = flat_map f before ++ f x ++ flat_map f after.
Proof. rewrite flat_map_app. reflexivity. Qed.

(** The paths walked do not depend on what is in a directory that is
    pruned. *)
Lemma walked_plug (c : ctx) (d1 d2 : tree) :
  kept (dname d1) = false -> kept (dname d2) = false ->
  forall root rel,
    walked root rel (plug c d1) = walked root rel (plug c d2).
Proof.
  intros H1 H2.
  induction c as [name fs before after | name fs before inner IH after];
    intros root rel; cbn [plug walked]; f_equal;
    rewrite !flat_map_middle; f_equal.
  - rewrite H1, H2. reflexivity.
  - rewrite (dname_plug inner d1 d2), IH. reflexivity.
Qed.

Lemma kept_false (name : str) :
  Py.mem name EXCLUDE_DIRS = true \/ Py.startswith name (lit ".") = true ->
  kept name = false.
Proof.
  unfold kept. intros [-> | ->]; simpl; auto. apply andb_false_r.
Qed.

(** C8, as the code has it.  Take a directory tree with, at any depth
    below the root, a directory whose name is in [EXCLUDE_DIRS] or starts
    with a dot.  The walk does not enter it: what [main] does (the disk
    it leaves, the lines it prints with the counts of changed and scanned
    files, or the exception) is the same whatever the directory holds.
    And when [main] returns, every file that no path of the walk reaches
    is as it was; so a file inside the directory is untouched unless a
    path outside the pruned directories leads to the same file. *)
Theorem excluded_directory_not_entered (c : ctx) (sub1 sub2 : tree)
  (d : disk) :
  Py.mem (dname sub1) EXCLUDE_DIRS = true
  \/ Py.startswith (dname sub1) (lit ".") = true ->
  Py.mem (dname sub2) EXCLUDE_DIRS = true
  \/ Py.startswith (dname sub2) (lit ".") = true ->
  main (plug c sub1) d = main (plug c sub2) d
  /\ forall d' out code i,
      main (plug c sub1) d = Some (d', out, code) ->
      ~ In i (map inode_of (walked ROOT [] (plug c sub1))) ->
      nth_error d' i = nth_error d i.
Proof.
  intros H1 H2. apply kept_false in H1, H2. split.
  - unfold main. rewrite !walk_walked, (walked_plug c sub1 sub2 H1 H2).
    reflexivity.
  - intros d' out code i Hmain Hi. unfold main in Hmain.
    rewrite walk_walked in Hmain.
    destruct (visit_all _ d _) as [[d1 s1]|] eqn:Hall; [|discriminate].
    injection Hmain as <- _ _.
    apply (proj2 (visit_all_frame _ _ _ _ _ Hall) i Hi).
Qed.
(** ** More on the transformer *)

Lemma for_each_app (f : Z -> option str) (a b : str) :
  for_each f (a ++ b) =
  (pa <- for_each f a ;; pb <- for_each f b ;; Some (pa ++ pb)).
Proof.
  induction a as [|ch a IH]; simpl.
  - destruct (for_each f b); reflexivity.
  - destruct (f ch) as [p|]; simpl; auto.
    rewrite IH. destruct (for_each f a) as [pa|]; simpl; auto.
    destruct (for_each f b); reflexivity.
Qed.

(** X1. The transformer works character by character: the transform of
    a concatenation is the concatenation of the transforms, and it raises
    when one of the two does. *)
Theorem replace_in_text_app (a b : str) :
  replace_in_text (a ++ b) =
  (x <- replace_in_text a ;; y <- replace_in_text b ;; Some (x ++ y)).
Proof.
  rewrite !replace_in_text_simple. unfold delete_then_fallback.
  rewrite filter_app, for_each_app.
  destruct (for_each range_fallback (filter _ a)) as [pa|]; simpl; auto.
  destruct (for_each range_fallback (filter _ b)) as [pb|]; simpl; auto.
  unfold Py.join. rewrite concat_app. reflexivity.
Qed.

Lemma for_each_None (f : Z -> option str) (text : str) :
  for_each f text = None <-> exists ch, In ch text /\ f ch = None.
Proof.
  induction text as [|ch rest IH]; simpl.
  - split; [discriminate | intros (ch & [] & _)].
  - destruct (f ch) as [p|] eqn:E; simpl.
    + destruct (for_each f rest) as [ps|]; simpl.
      * split; [discriminate|].
        intros (x & [<-|Hin] & Hx); [congruence|].
        assert (Some ps = None) by (apply IH; eauto). discriminate.
      * split; auto. intros _.
        destruct (proj1 IH eq_refl) as (x & Hin & Hx). eauto.
    + split; auto. intros _. eauto.
Qed.

Lemma fallback_None (ch : Z) :
  fallback ch = None
  <-> exists name, ud_name ch = Some name /\ Py.split isspace name = [].
Proof.
  unfold fallback. destruct (ud_name ch) as [name|].
  - destruct (Py.split isspace name) as [|w ws] eqn:E; simpl.
    + split; eauto.
    + split; [discriminate | intros (n & [= <-] & H); congruence].
  - split; [discriminate | intros (n & H & _); discriminate].
Qed.

(** X2. [replace_in_text] raises (the [IndexError] of [name.split()[0]])
    exactly on the texts with a character of the pictographic ranges
    whose Unicode name has no word. *)
Theorem replace_in_text_raises (text : str) :
  replace_in_text text = None
  <-> exists ch name,
        In ch text /\ pictographic ch = true
        /\ ud_name ch = Some name /\ Py.split isspace name = [].
Proof.
  rewrite replace_in_text_simple. unfold delete_then_fallback.
  destruct (for_each range_fallback (filter _ text)) as [ps|] eqn:E; simpl.
  - split; [discriminate|].
    intros (ch & name & Hin & Hp & Hn & Hs).
    assert (H : for_each range_fallback
                  (filter (fun ch => negb (Py.mem [ch] REMOVE_CHARS)) text)
                = None); [|congruence].
    apply for_each_None. exists ch. split.
    + apply filter_In. split; auto.
      rewrite mem_REMOVE_CHARS.
      apply negb_true_iff, Z.eqb_neq, pictographic_not_VS16, Hp.
    + unfold range_fallback. rewrite Hp. apply fallback_None. eauto.
  - split; auto. intros _.
    apply for_each_None in E. destruct E as (ch & Hin & Hch).
    apply filter_In in Hin. destruct Hin as [Hin _].
    unfold range_fallback in Hch.
    destruct (pictographic ch) eqn:Hp; [|discriminate].
    apply fallback_None in Hch. destruct Hch as (name & Hn & Hs).
    exists ch, name. auto.
Qed.

(** What the fallback of the ranges gives for a character: the character
    itself, which has no name if it is in the ranges, or for a character
    of the ranges a text that starts with a square bracket. *)
Lemma range_fallback_cases (ch : Z) (p : str) :
  range_fallback ch = Some p ->
  (p = [ch] /\ (pictographic ch = true -> ud_name ch = None))
  \/ (pictographic ch = true /\ ud_name ch <> None /\ exists q, p = 91 :: q).
Proof.
  unfold range_fallback. destruct (pictographic ch) eqn:Hp.
  - unfold fallback. destruct (ud_name ch) as [name|].
    + destruct (hd_error (Py.split isspace name)) as [w|]; simpl;
        [|discriminate].
      intros [= <-]. right. repeat split; eauto. discriminate.
    + intros [= <-]. left. auto.
  - intros [= <-]. left. split; auto. discriminate.
Qed.

Lemma repeat_shift (k : nat) (rest : str) :
  repeat VS16 k ++ VS16 :: rest = repeat VS16 (S k) ++ rest.
Proof.
  change (VS16 :: rest) with ([VS16] ++ rest).
  rewrite app_assoc, <- repeat_cons. reflexivity.
Qed.

Lemma fixed_point_chars (text : str) :
  forall k ps,
    for_each range_fallback (filter (fun ch => negb (ch =? VS16)) text)
    = Some ps ->
    Py.join ps = repeat VS16 k ++ text ->
    k = 0%nat
    /\ Forall (fun ch => ch <> VS16
                         /\ (pictographic ch = true -> ud_name ch = None))
         text.
Proof.
  induction text as [|ch rest IH]; intros k ps Hps Hjoin.
  - simpl in Hps. injection Hps as <-. rewrite app_nil_r in Hjoin.
    destruct k; [auto | discriminate].
  - simpl in Hps. destruct (ch =? VS16) eqn:E; simpl in Hps.
    + apply Z.eqb_eq in E. subst ch. rewrite repeat_shift in Hjoin.
      destruct (IH (S k) ps Hps Hjoin) as [Hk _]. discriminate.
    + apply Z.eqb_neq in E.
      destruct (range_fallback ch) as [p|] eqn:Hp; simpl in Hps;
        [|discriminate].
      destruct (for_each range_fallback _) as [ps'|] eqn:Hps';
        simpl in Hps; [|discriminate].
      injection Hps as <-. simpl in Hjoin.
      destruct (range_fallback_cases ch p Hp)
        as [[-> Hname] | (Hpict & _ & q & ->)].
      * destruct k as [|k]; simpl in Hjoin.
        -- injection Hjoin as Hjoin.
           destruct (IH 0%nat ps' eq_refl Hjoin) as [_ Hrest].
           split; auto.
        -- injection Hjoin as Hch _. congruence.
      * exfalso. destruct k as [|k]; simpl in Hjoin;
          injection Hjoin as Hch _.
        -- subst ch. discriminate.
        -- discriminate.
Qed.

(** The texts that are returned as they are. *)
Lemma unchanged_iff (text : str) :
  replace_in_text text = Some text
  <-> forall ch, In ch text ->
                 ch <> VS16
                 /\ (pictographic ch = true -> ud_name ch = None).
Proof.
  rewrite <- Forall_forall. split.
  - rewrite replace_in_text_simple. unfold delete_then_fallback.
    rewrite (filter_ext _ (fun ch => negb (ch =? VS16)))
      by (intros; rewrite mem_REMOVE_CHARS; reflexivity).
    destruct (for_each range_fallback _) as [ps|] eqn:E; simpl;
      [|discriminate].
    intros [= H]. apply (fixed_point_chars text 0%nat ps E H).
  - intros H. apply replace_in_text_fixed.
    eapply Forall_impl; [|exact H].
    intros ch [Hne Hname]. split; auto.
    unfold range_fallback. destruct (pictographic ch); auto.
    apply fallback_unnamed; auto.
Qed.

(** X3. The texts that [replace_in_text] returns as they are: those
    without a variation selector in which every character of the
    pictographic ranges has no Unicode name.  The keys of [MAP] play no
    part. *)
Theorem replace_in_text_fixed_points (text : str) :
  replace_in_text text = Some text
  <-> forall ch, In ch text ->
                 ch <> VS16
                 /\ (pictographic ch = true -> ud_name ch = None).
Proof.
  split; intros H.
  - apply (proj1 (unchanged_iff text) H).
  - apply (proj2 (unchanged_iff text) H).
Qed.

(** X4. What [replace_in_text] returns has no character of the
    pictographic ranges that has a Unicode name: all of them were
    replaced. *)
Theorem replace_in_text_complete (tables : unicode_tables) (text : str) :
  exists out,
    replace_in_text text = Some out
    /\ forall ch, In ch out -> pictographic ch = true -> ud_name ch = None.
Proof.
  destruct (replace_in_text_total tables text) as (out & H & Hout).
  exists out. split; auto. intros ch Hin.
  apply replace_in_text_fixed in Hout.
  apply (proj1 (unchanged_iff out) Hout ch Hin).
Qed.

(** X5. When the first word of the name has no letter and no digit, the
    fallback is [[SYM]]. *)
Theorem fallback_SYM (tables : unicode_tables) (ch : Z) (name w : str)
  (ws : list str) :
  ud_name ch = Some name ->
  Py.split Host.isspace name = w :: ws ->
  filter Host.isalnum w = [] ->
  fallback ch = Some (lit "[SYM]").
Proof.
  intros Hn Hw Hf.
  destruct (fallback_named tables ch name Hn) as (w' & ws' & Hw' & ->).
  rewrite Hw in Hw'. injection Hw' as <- <-. rewrite Hf. reflexivity.
Qed.

(** ** More on the classifier *)

(** No extension is in both lists. *)
Lemma bin_exts_not_text (e : str) :
  Py.mem e bin_exts = true -> Py.mem e TEXT_EXTS = false.
Proof.
  unfold Py.mem at 1. rewrite existsb_exists.
  intros (x & Hin & Hx). apply eqb_eq in Hx. subst x.
  vm_compute in Hin.
  repeat (destruct Hin as [<-|Hin]; [reflexivity|]). destruct Hin.
Qed.

(** X6. A file whose lower-cased extension is in [bin_exts] is never
    eligible, whatever it contains. *)
Theorem looks_text_bin_exts (path : str) (rb : option bytes) :
  Py.mem (lower (snd (splitext path))) bin_exts = true ->
  looks_text path rb = false.
Proof.
  intros H. unfold looks_text.
  rewrite (bin_exts_not_text _ H), H. reflexivity.
Qed.

(** X7. A file that can be read and has no NUL among its first 2048
    bytes, an empty file for one, is eligible unless its lower-cased
    extension is in [bin_exts]. *)
Theorem looks_text_without_NUL (path : str) (content : bytes) :
  (forall i, (i < 2048)%nat -> nth_error content i <> Some x00) ->
  looks_text path (Some content)
  = negb (Py.mem (lower (snd (splitext path))) bin_exts).
Proof.
  intros Hno. unfold looks_text.
  destruct (Py.mem (lower (snd (splitext path))) bin_exts) eqn:Hbin.
  - rewrite (bin_exts_not_text _ Hbin). reflexivity.
  - destruct (Py.mem _ TEXT_EXTS); [reflexivity|].
    destruct (existsb (Byte.eqb x00) (firstn 2048 content)) eqn:E;
      [|reflexivity].
    apply NUL_in_prefix in E. destruct E as (i & Hi & Hnth).
    destruct (Hno i Hi Hnth).
Qed.

Lemma bracket_token_ascii (t : str) :
  bracket_token t = true -> Forall is_ascii t.
Proof.
  destruct t as [|c r]; [discriminate|]. simpl.
  destruct (rev r) as [|d m] eqn:E; [discriminate|].
  rewrite !andb_true_iff, !Z.eqb_eq, forallb_forall.
  intros [[[-> ->] _] Hm].
  assert (Hr : r = rev m ++ [93])
    by (rewrite <- (rev_involutive r), E; reflexivity).
  subst r. constructor; [unfold is_ascii; lia|].
  apply Forall_app. split.
  - apply Forall_forall. intros x Hx. apply in_rev, Hm in Hx.
    classes. lia.
  - constructor; [unfold is_ascii; lia | constructor].
Qed.

(** X14. A text in which every character is ASCII, or the variation
    selector, or a character of the pictographic ranges that has a
    Unicode name, is turned into an ASCII text. *)
Theorem replace_in_text_ascii (tables : unicode_tables) (text : str) :
  (forall ch, In ch text ->
              is_ascii ch \/ ch = VS16
              \/ (pictographic ch = true /\ ud_name ch <> None)) ->
  exists out, replace_in_text text = Some out /\ Forall is_ascii out.
Proof.
  intros H. rewrite replace_in_text_simple. unfold delete_then_fallback.
  assert (Hpieces :
            forall l, (forall ch, In ch l -> In ch text /\ ch <> VS16) ->
                      exists ps, for_each range_fallback l = Some ps
                                 /\ Forall is_ascii (Py.join ps)).
  { induction l as [|ch l IH]; intros Hl.
    - exists []. split; [reflexivity | constructor].
    - destruct (IH (fun x Hx => Hl x (or_intror Hx))) as (ps & Hps & Hascii).
      destruct (Hl ch (or_introl eq_refl)) as [Hin Hne].
      assert (exists p, range_fallback ch = Some p /\ Forall is_ascii p)
        as (p & Hp & Hpa).
      { unfold range_fallback.
        destruct (H ch Hin) as [Ha | [? | [Hpict Hname]]]; [| congruence |].
        - replace (pictographic ch) with false by (classes; lia).
          exists [ch]. split; auto.
        - rewrite Hpict. destruct (ud_name ch) as [name|] eqn:Hn;
            [|congruence].
          destruct (fallback_bracket tables ch name Hn) as (t & -> & Ht).
          exists t. split; auto. apply bracket_token_ascii, Ht. }
      exists (p :: ps). cbn [for_each]. rewrite Hp, Hps. split; auto.
      simpl. apply Forall_app. auto. }
  destruct (Hpieces (filter (fun ch => negb (Py.mem [ch] REMOVE_CHARS)) text))
    as (ps & -> & Hascii).
  - intros ch Hin. apply filter_In in Hin. destruct Hin as [Hin Hne].
    rewrite mem_REMOVE_CHARS in Hne.
    apply negb_true_iff, Z.eqb_neq in Hne. auto.
  - exists (Py.join ps). auto.
Qed.

(** ** More on the walker *)

(** X8. A file with an extension of [bin_exts] is passed over by the
    loop body: the disk is left as it was, and nothing is counted or
    printed. *)
Theorem binary_file_skipped (root : str) (rel : list str) (fn : str)
  (i : nat) (d : disk) (s : state) :
  Py.mem (lower (snd (splitext (os_path_join root fn)))) bin_exts = true ->
  visit root rel (fn, i) d s = Some (d, s).
Proof.
  intros H. unfold visit, looks_text.
  rewrite (bin_exts_not_text _ H), H. reflexivity.
Qed.

Lemma put_changes (d : disk) (i : nat) (n m : inode) :
  nth_error d i = Some m -> iwrites n <> iwrites m -> put d i n <> d.
Proof.
  intros Hm Hne E. apply (f_equal (fun l => nth_error l i)) in E.
  rewrite (nth_error_put_same d i n m Hm), Hm in E.
  injection E as ->. congruence.
Qed.

(** X9. For an eligible file that was read: the loop body leaves the
    disk as it was and goes on exactly when the text has no variation
    selector and no character of the pictographic ranges that has a
    Unicode name; and it raises exactly when the text has one and the
    file cannot be written.  In the remaining case the file is
    rewritten. *)
Theorem rewritten_iff_target (tables : unicode_tables) (root : str)
  (rel : list str) (fn : str) (i : nat) (d : disk) (s : state)
  (text : str) :
  looks_text (os_path_join root fn) (open_rb d i) = true ->
  read_text d i = Some text ->
  let target_free :=
    forall ch, In ch text ->
               ch <> VS16 /\ (pictographic ch = true -> ud_name ch = None) in
  exists n,
    nth_error d i = Some n
    /\ ((exists s', visit root rel (fn, i) d s = Some (d, s'))
        <-> target_free)
    /\ (visit root rel (fn, i) d s = None
        <-> ~ target_free /\ iwritable n = false).
Proof.
  intros Hlooks Hread target_free.
  destruct (replace_in_text_total tables text) as (new_text & Hnew & _).
  pose proof (unchanged_iff text) as Hfix. fold target_free in Hfix.
  rewrite Hnew in Hfix.
  assert (exists n, nth_error d i = Some n) as (n & Hn).
  { unfold read_text, open_rb in Hread.
    destruct (nth_error d i) as [n|]; [eauto | discriminate]. }
  exists n. split; auto.
  unfold visit. rewrite Hlooks, Hread, Hnew. cbn [negb bind].
  unfold write_text. rewrite Hn.
  destruct (Py.eqb new_text text) eqn:E; cbn [negb].
  - apply eqb_eq in E. subst new_text.
    assert (Htf : target_free) by (apply Hfix; reflexivity).
    split; split; eauto.
    + discriminate.
    + intros [Hno _]. destruct (Hno Htf).
  - apply eqb_neq in E.
    assert (Htf : ~ target_free) by (intros H; apply Hfix in H; congruence).
    destruct (iwritable n) eqn:Hw; cbn [bind]; split; split.
    + intros (s' & [= Hput _]). exfalso.
      apply (put_changes d i _ n Hn) in Hput;
        [destruct Hput | simpl; lia].
    + intros H. destruct (Htf H).
    + discriminate.
    + intros [_ H]. discriminate.
    + intros (s' & H). discriminate.
    + intros H. destruct (Htf H).
    + auto.
    + auto.
Qed.

Lemma visit_all_keeps (W : list target) :
  forall d s d' s',
    visit_all W d s = Some (d', s') ->
    forall i n,
      nth_error d i = Some n ->
      exists n',
        nth_error d' i = Some n'
        /\ iwritable n' = iwritable n
        /\ (idata n = None -> n' = n).
Proof.
  induction W as [|[[root rel] [fn j]] W IH]; intros d s d' s' H i n Hn.
  - injection H as <- <-. eauto.
  - cbn [visit_all] in H.
    destruct (visit root rel (fn, j) d s) as [[d1 s1]|] eqn:Hv;
      [|discriminate].
    cbn [bind] in H.
    assert (exists n1,
               nth_error d1 i = Some n1 /\ iwritable n1 = iwritable n
               /\ (idata n = None -> n1 = n)) as (n1 & Hn1 & Hw1 & Hd1).
    { apply visit_Some in Hv.
      destruct Hv as [(-> & _)
                     | (text & new_text & _ & Hr & _ & _ & Hw & _)];
        [eauto|].
      apply write_text_Some in Hw. destruct Hw as (m & Hm & Hmw & ->).
      destruct (Nat.eq_dec j i) as [->|Hji].
      - rewrite Hn in Hm. injection Hm as <-.
        rewrite (nth_error_put_same d i _ n Hn).
        eexists. split; [reflexivity|]. split; [simpl; congruence|].
        intros Hnone. unfold read_text, open_rb in Hr.
        rewrite Hn in Hr. cbn [bind] in Hr. rewrite Hnone in Hr.
        discriminate.
      - rewrite (nth_error_put_other d j i _ Hji). eauto. }
    destruct (IH d1 s1 d' s' H i n1 Hn1) as (n' & Hn' & Hw' & Hd').
    exists n'. split; auto. split; [congruence|].
    intros Hnone. rewrite <- (Hd1 Hnone). apply Hd'.
    rewrite (Hd1 Hnone). exact Hnone.
Qed.

(** X11. When [main] returns, it has created and deleted no file; every
    file that no path of the walk reaches is as it was, and so is every
    file that cannot be opened for reading; and no file has changed in
    whether it can be written. *)
Theorem main_frame (t : tree) (d d' : disk) (out : list str) (code : Z) :
  main t d = Some (d', out, code) ->
  length d' = length d
  /\ (forall i, ~ In i (map inode_of (walked ROOT [] t)) ->
                nth_error d' i = nth_error d i)
  /\ (forall i n, nth_error d i = Some n ->
                  exists n',
                    nth_error d' i = Some n'
                    /\ iwritable n' = iwritable n
                    /\ (idata n = None -> n' = n)).
Proof.
  unfold main. rewrite walk_walked.
  destruct (visit_all _ d _) as [[d1 s1]|] eqn:H; [|discriminate].
  intros [= <- _ _].
  destruct (visit_all_frame _ _ _ _ _ H) as [Hlen Hfr].
  split; auto. split; auto.
  apply (visit_all_keeps _ _ _ _ _ H).
Qed.

Lemma visit_all_writes (W : list target) :
  forall d s d' s',
    visit_all W d s = Some (d', s') ->
    (writes d' + length (stdout s) = writes d + length (stdout s'))%nat.
Proof.
  induction W as [|[[root rel] [fn i]] W IH]; intros d s d' s' H.
  - injection H as <- <-. reflexivity.
  - cbn [visit_all] in H.
    destruct (visit root rel (fn, i) d s) as [[d1 s1]|] eqn:Hv;
      [|discriminate].
    cbn [bind] in H. specialize (IH d1 s1 d' s' H).
    apply visit_Some in Hv.
    destruct Hv as [(-> & _ & _ & Ho & _)
                   | (text & new_text & _ & _ & _ & _ & Hw & _ & _ & Ho)].
    + rewrite Ho in IH. exact IH.
    + apply write_text_Some in Hw. destruct Hw as (n & Hn & _ & ->).
      pose proof (writes_put d i
                    {| idata := Some (encode new_text); iwritable := true;
                       iwrites := S (iwrites n) |} n Hn) as Hput.
      rewrite Ho, length_app in IH. simpl in IH, Hput. lia.
Qed.

(** X12. In a run of [main] that returns, the number of times that a
    file is opened for writing is the number of lines printed before the
    summary. *)
Theorem main_writes (t : tree) (d d' : disk) (out : list str) (code : Z) :
  main t d = Some (d', out, code) ->
  (writes d' + 1 = writes d + length out)%nat.
Proof.
  unfold main. rewrite walk_walked.
  destruct (visit_all _ d _) as [[d1 s1]|] eqn:H; [|discriminate].
  intros [= <- <- _].
  apply visit_all_writes in H. rewrite length_app. simpl in *. lia.
Qed.

Lemma state_after_nil (d : disk) (s : state) : state_after d s [] s.
Proof.
  unfold state_after. simpl. rewrite app_nil_r. repeat split; lia.
Qed.

Lemma state_after_app (d : disk) (s s1 s2 : state) (W1 W2 : list target) :
  state_after d s W1 s1 -> state_after d s1 W2 s2 ->
  state_after d s (W1 ++ W2) s2.
Proof.
  unfold state_after. intros (Hc1 & Hs1 & Ho1) (Hc2 & Hs2 & Ho2).
  rewrite !filter_app, !length_app, map_app, app_assoc, <- Ho1.
  repeat split; auto; lia.
Qed.

(** What the loop body does at a path depends on the file of the path
    only. *)
Lemma rewritable_ext (d d0 : disk) (x : target) :
  nth_error d (inode_of x) = nth_error d0 (inode_of x) ->
  rewritable d x = rewritable d0 x.
Proof.
  destruct x as [[root rel] [fn i]]. unfold inode_of. cbn [snd]. intros H.
  unfold rewritable, read_text, open_rb. rewrite H. reflexivity.
Qed.

Lemma scannable_ext (d d0 : disk) (x : target) :
  nth_error d (inode_of x) = nth_error d0 (inode_of x) ->
  scannable d x = scannable d0 x.
Proof.
  destruct x as [[root rel] [fn i]]. unfold inode_of. cbn [snd]. intros H.
  unfold scannable, read_text, open_rb. rewrite H. reflexivity.
Qed.

Lemma visit_state (root : str) (rel : list str) (fn : str) (i : nat)
  (d : disk) (s : state) (d' : disk) (s' : state) :
  visit root rel (fn, i) d s = Some (d', s') ->
  state_after d s [(root, rel, (fn, i))] s'.
Proof.
  intros H. apply visit_Some in H. unfold state_after.
  destruct H as [(_ & Hrw & Hc & Ho & Hs)
                | (text & new_text & Hl & Hr & Hn & Hne & _ & Hc & Hs & Ho)].
  - cbn [filter] in *. rewrite Hrw. simpl.
    rewrite app_nil_r. repeat split; auto; lia.
  - assert (Hrw : rewritable d (root, rel, (fn, i)) = true).
    { unfold rewritable. rewrite Hl, Hr, Hn. apply eqb_neq in Hne.
      rewrite Hne. reflexivity. }
    assert (Hsc : scannable d (root, rel, (fn, i)) = true).
    { unfold scannable. rewrite Hl, Hr. reflexivity. }
    cbn [filter]. rewrite Hrw, Hsc. simpl. repeat split; auto; lia.
Qed.

Lemma state_after_ext (d d0 : disk) (s s' : state) (x : target) :
  nth_error d (inode_of x) = nth_error d0 (inode_of x) ->
  state_after d s [x] s' -> state_after d0 s [x] s'.
Proof.
  intros H. unfold state_after. cbn [filter].
  rewrite (rewritable_ext d d0 x H), (scannable_ext d d0 x H). auto.
Qed.

(** Where no two paths lead to one file, every path is met with the
    content that its file had at the start. *)
Lemma visit_all_state (d0 : disk) (W : list target) :
  NoDup (map inode_of W) ->
  forall d s d' s',
    (forall x, In x W ->
               nth_error d (inode_of x) = nth_error d0 (inode_of x)) ->
    visit_all W d s = Some (d', s') ->
    state_after d0 s W s'.
Proof.
  induction W as [|[[root rel] [fn i]] W IH]; intros Hnd d s d' s' Hagree H.
  - injection H as <- <-. apply state_after_nil.
  - cbn [visit_all] in H.
    destruct (visit root rel (fn, i) d s) as [[d1 s1]|] eqn:Hv;
      [|discriminate].
    cbn [bind] in H. cbn [map] in Hnd. inversion_clear Hnd as [|? ? Hi HW].
    change ((root, rel, (fn, i)) :: W) with ([(root, rel, (fn, i))] ++ W).
    apply (state_after_app d0 s s1 s').
    + apply (state_after_ext d d0); [apply Hagree; left; reflexivity|].
      apply (visit_state _ _ _ _ _ _ _ _ Hv).
    + apply (IH HW d1 s1 d' s'); auto.
      intros x Hx. rewrite <- (Hagree x (or_intror Hx)).
      apply (proj2 (visit_frame _ _ _ _ _ _ _ _ Hv)).
      intros E. apply Hi. change (inode_of (root, rel, (fn, i))) with i.
      rewrite <- E. apply in_map, Hx.
Qed.

(** What is rewritten was scanned. *)
Lemma rewritable_scannable (d : disk) (x : target) :
  rewritable d x = true -> scannable d x = true.
Proof.
  destruct x as [[root rel] [fn i]]. unfold rewritable, scannable.
  destruct (looks_text _ _); simpl; auto.
  destruct (read_text d i); auto.
Qed.

Lemma filter_length_le {A} (p q : A -> bool) (l : list A) :
  (forall x, p x = true -> q x = true) ->
  (length (filter p l) <= length (filter q l))%nat.
Proof.
  intros H. induction l as [|x l IH]; simpl; auto.
  destruct (p x) eqn:E.
  - rewrite (H x E). simpl. lia.
  - destruct (q x); simpl; lia.
Qed.

(** X10. On a tree where no two paths of the walk lead to one file, a
    run of [main] that returns has printed one [Rewrote: ] line for each
    path to rewrite that the walk comes to, in the order of the walk,
    and then the summary with their number and the number of the scanned
    files, which is not less; and it returns 0. *)
Theorem main_output (t : tree) (d d' : disk) (out : list str) (code : Z) :
  NoDup (map inode_of (walked ROOT [] t)) ->
  main t d = Some (d', out, code) ->
  let W := walked ROOT [] t in
  let R := filter (rewritable d) W in
  let S := filter (scannable d) W in
  code = 0
  /\ out =
     map rewrote_line R
     ++ [lit "Done. Updated " ++ str_of_nat (length R)
         ++ lit " files (scanned " ++ str_of_nat (length S) ++ lit ")."]
  /\ (length R <= length S)%nat.
Proof.
  intros Hnd Hmain W R S. unfold main in Hmain.
  rewrite walk_walked in Hmain. fold W in Hmain, Hnd.
  destruct (visit_all W d _) as [[d1 s1]|] eqn:H; [|discriminate].
  injection Hmain as _ <- <-.
  destruct (visit_all_state d W Hnd d _ d1 s1 (fun _ _ => eq_refl) H)
    as (Hc & Hs & Ho).
  simpl in Hc, Hs, Ho. fold R in Hc, Ho. fold S in Hs.
  rewrite Hc, Hs, Ho.
  split; [reflexivity|]. split; [reflexivity|].
  apply filter_length_le, rewritable_scannable.
Qed.

(** *** A second run *)

Lemma read_text_ext (d d' : disk) (i : nat) :
  nth_error d' i = nth_error d i -> read_text d' i = read_text d i.
Proof. intros H. unfold read_text, open_rb. rewrite H. reflexivity. Qed.

Lemma settled_ext (d d' : disk) (i : nat) :
  nth_error d' i = nth_error d i -> settled d i -> settled d' i.
Proof.
  intros H Hs text Hr. apply Hs. rewrite <- (read_text_ext d d' i H).
  exact Hr.
Qed.

Lemma quiet_ext (d d' : disk) (x : target) :
  nth_error d' (inode_of x) = nth_error d (inode_of x) ->
  quiet d x -> quiet d' x.
Proof.
  destruct x as [[root rel] [fn i]]. unfold inode_of. cbn [snd].
  intros H [Hl | Hs].
  - left. unfold open_rb in *. rewrite H. exact Hl.
  - right. apply (settled_ext d d' i H Hs).
Qed.

Lemma settled_quiet (d : disk) (x : target) :
  settled d (inode_of x) -> quiet d x.
Proof. destruct x as [[root rel] [fn i]]. intros H. right. exact H. Qed.

(** A file that was written holds what was written. *)
Lemma write_text_settles (d : disk) (i : nat) (new_text : str) (d' : disk) :
  write_text d i new_text = Some d' ->
  decode (encode new_text) = Some new_text ->
  replace_in_text new_text = Some new_text ->
  settled d' i.
Proof.
  intros Hw Hcodec Hfix text Hr.
  apply write_text_Some in Hw. destruct Hw as (n & Hn & _ & ->).
  unfold read_text, open_rb in Hr.
  rewrite (nth_error_put_same d i _ n Hn) in Hr. cbn [bind idata] in Hr.
  rewrite Hcodec in Hr. injection Hr as <-. exact Hfix.
Qed.

(** On a disk where the loop body has nothing to write at the paths,
    it writes nothing. *)
Lemma visit_all_quiet (W : list target) (d : disk) :
  Forall (quiet d) W ->
  forall s,
  exists s',
    visit_all W d s = Some (d, s')
    /\ changed s' = changed s /\ stdout s' = stdout s.
Proof.
  induction 1 as [|[[root rel] [fn i]] W Hq _ IH]; intros s.
  - exists s. repeat split.
  - assert (exists s1,
               visit root rel (fn, i) d s = Some (d, s1)
               /\ changed s1 = changed s /\ stdout s1 = stdout s)
      as (s1 & Hv & Hc1 & Ho1).
    { unfold visit. destruct Hq as [Hl | Hs].
      - rewrite Hl. eexists. repeat split.
      - destruct (looks_text _ _); cbn [negb]; [|eexists; repeat split].
        destruct (read_text d i) as [text|] eqn:Hr;
          [|eexists; repeat split].
        rewrite (Hs text Hr). cbn [bind]. rewrite eqb_refl. cbn [negb].
        eexists. repeat split. }
    destruct (IH s1) as (s2 & Hall & Hc2 & Ho2).
    exists s2. cbn [visit_all]. rewrite Hv. cbn [bind].
    repeat split; congruence.
Qed.

Section Again.

Hypothesis tables : unicode_tables.

Lemma not_rewritable_quiet (d : disk) (x : target) :
  rewritable d x = false -> quiet d x.
Proof using tables.
  destruct x as [[root rel] [fn i]]. unfold rewritable, quiet.
  destruct (looks_text _ _); cbn [andb]; [|auto].
  intros H. right. intros text Hr. rewrite Hr in H.
  destruct (replace_in_text_total tables text) as (new_text & Hnew & _).
  rewrite Hnew in H. apply negb_false_iff, eqb_eq in H. congruence.
Qed.

(** One turn of the loop in a run that started on the disk [d0]: every
    file is as it was at the start or holds a text that the transformer
    leaves as it is, and the paths where there is nothing to write stay
    so. *)
Lemma visit_settles (d0 : disk) (root : str) (rel : list str) (fn : str)
  (i : nat) (d : disk) (s : state) (d1 : disk) (s1 : state) :
  (forall j, nth_error d j = nth_error d0 j \/ settled d j) ->
  codec_round_trip d0 (root, rel, (fn, i)) ->
  visit root rel (fn, i) d s = Some (d1, s1) ->
  (forall j, nth_error d1 j = nth_error d0 j \/ settled d1 j)
  /\ quiet d1 (root, rel, (fn, i))
  /\ (forall y, quiet d y -> quiet d1 y).
Proof using tables.
  intros Hinv Hcodec Hv. apply visit_Some in Hv.
  destruct Hv as [(-> & Hrw & _)
                 | (text & new_text & Hl & Hr & Hn & Hne & Hw & _)].
  - split; auto. split; auto. apply not_rewritable_quiet, Hrw.
  - assert (Hs1 : settled d1 i).
    { apply (write_text_settles d i new_text d1 Hw).
      - destruct (Hinv i) as [Hsame | Hset].
        + apply (Hcodec text new_text); auto.
          unfold inode_of. cbn [snd].
          rewrite (read_text_ext d d0 i); auto.
        + rewrite (Hset text Hr) in Hn. congruence.
      - destruct (replace_in_text_total tables text) as (out & Hout & Hfix).
        rewrite Hn in Hout. injection Hout as <-.
        apply replace_in_text_fixed, Hfix. }
    assert (Hother : forall j, j <> i -> nth_error d1 j = nth_error d j).
    { apply write_text_Some in Hw. destruct Hw as (n & _ & _ & ->).
      intros j Hj. apply nth_error_put_other. congruence. }
    split; [|split].
    + intros j. destruct (Nat.eq_dec j i) as [->|Hj]; [auto|].
      destruct (Hinv j) as [Hsame | Hset].
      * left. rewrite (Hother j Hj). exact Hsame.
      * right. apply (settled_ext d d1 j (Hother j Hj) Hset).
    + right. exact Hs1.
    + intros y Hy. destruct (Nat.eq_dec (inode_of y) i) as [E|E].
      * apply settled_quiet. rewrite E. exact Hs1.
      * apply (quiet_ext d d1 y (Hother _ E) Hy).
Qed.

Lemma visit_all_settles (d0 : disk) (W : list target) :
  forall d s d' s',
    (forall j, nth_error d j = nth_error d0 j \/ settled d j) ->
    Forall (codec_round_trip d0) W ->
    visit_all W d s = Some (d', s') ->
    (forall j, nth_error d' j = nth_error d0 j \/ settled d' j)
    /\ Forall (quiet d') W
    /\ (forall y, quiet d y -> quiet d' y).
Proof using tables.
  induction W as [|[[root rel] [fn i]] W IH];
    intros d s d' s' Hinv Hcodec H.
  - injection H as <- <-. auto.
  - cbn [visit_all] in H.
    destruct (visit root rel (fn, i) d s) as [[d1 s1]|] eqn:Hv;
      [|discriminate].
    cbn [bind] in H. inversion_clear Hcodec as [|? ? Hx HW].
    destruct (visit_settles d0 _ _ _ _ _ _ _ _ Hinv Hx Hv)
      as (Hinv1 & Hq1 & Hkeep1).
    destruct (IH d1 s1 d' s' Hinv1 HW H) as (Hinv' & Hq' & Hkeep').
    split; [exact Hinv'|]. split; [constructor; auto|].
    intros y Hy. apply Hkeep', Hkeep1, Hy.
Qed.

End Again.

(** X13. Running [main] again on the disk that a run of [main] left,
    where what was written is read back as it was written, rewrites
    nothing: the disk stays as it is and only the summary is printed,
    with no file updated. *)
Theorem main_again (tables : unicode_tables) (t : tree) (d d' : disk)
  (out : list str) (code : Z) :
  main t d = Some (d', out, code) ->
  Forall (codec_round_trip d) (walked ROOT [] t) ->
  exists n,
    main t d' =
    Some (d',
          [lit "Done. Updated " ++ str_of_nat 0
           ++ lit " files (scanned " ++ str_of_nat n ++ lit ")."],
          0).
Proof.
  unfold main. rewrite !walk_walked. intros H Hcodec.
  destruct (visit_all _ d _) as [[d1 s1]|] eqn:Hall; [|discriminate].
  injection H as <- _ _.
  destruct (visit_all_settles tables d _ d _ d1 s1
              (fun j => or_introl eq_refl) Hcodec Hall)
    as (_ & Hquiet & _).
  destruct (visit_all_quiet _ d1 Hquiet
              {| changed := 0; scanned := 0; stdout := [] |})
    as (s2 & -> & Hc & Ho).
  cbn [bind]. simpl in Hc, Ho. rewrite Hc, Ho.
  exists (scanned s2). reflexivity.
Qed.

(** *** Runs that return *)

Lemma Forall_put (P : inode -> Prop) (d : disk) :
  forall i n, Forall P d -> P n -> Forall P (put d i n).
Proof.
  induction d as [|m d IH]; intros [|i] n Hd Hn; simpl; auto;
    inversion_clear Hd; constructor; auto.
Qed.

Lemma visit_all_returns (tables : unicode_tables) (W : list target) :
  forall d s,
    Forall (fun n => iwritable n = true) d ->
    exists d' s', visit_all W d s = Some (d', s').
Proof.
  induction W as [|[[root rel] [fn i]] W IH]; intros d s Hd; [simpl; eauto|].
  assert (exists d1 s1,
             visit root rel (fn, i) d s = Some (d1, s1)
             /\ Forall (fun n => iwritable n = true) d1)
    as (d1 & s1 & Hv & Hd1).
  { unfold visit. destruct (looks_text _ _); cbn [negb]; [|eauto].
    destruct (read_text d i) as [text|] eqn:Hr; [|eauto].
    destruct (replace_in_text_total tables text) as (new_text & -> & _).
    cbn [bind]. destruct (Py.eqb new_text text); cbn [negb]; [eauto|].
    unfold write_text. unfold read_text, open_rb in Hr.
    destruct (nth_error d i) as [n|] eqn:Hn; [|discriminate].
    rewrite Forall_forall in Hd.
    rewrite (Hd n (nth_error_In _ _ Hn)). cbn [bind].
    eexists _, _. split; [reflexivity|].
    apply Forall_put; [apply Forall_forall, Hd | reflexivity]. }
  cbn [visit_all]. rewrite Hv. cbn [bind]. apply IH, Hd1.
Qed.

(** X15. On a disk where every file can be written, [main] returns,
    with 0. *)
Theorem main_returns (tables : unicode_tables) (t : tree) (d : disk) :
  Forall (fun n => iwritable n = true) d ->
  exists d' out, main t d = Some (d', out, 0).
Proof.
  intros Hd. unfold main. rewrite walk_walked.
  destruct (visit_all_returns tables (walked ROOT [] t) d
              {| changed := 0; scanned := 0; stdout := [] |} Hd)
    as (d' & s' & ->).
  cbn [bind]. eauto.
Qed.
End Script.

(** ** The script on the ASCII fragment *)

Lemma Host_tables :
  unicode_tables Host.ud_name Host.isalnum Host.isspace Host.upper.
Proof.
  split; try reflexivity.
  - intros c n H. unfold Host.ud_name in H.
    repeat match type of H with
           | (if ?b then _ else _) = _ => destruct b
           end;
      inversion_clear H;
      apply Forall_forall; intros x Hx;
      unfold is_ascii; vm_compute in Hx; intuition lia.
  - intros c n H. unfold Host.ud_name in H.
    repeat match type of H with
           | (if ?b then _ else _) = _ => destruct b
           end;
      inversion_clear H;
      (eexists; split; [left; reflexivity | reflexivity]).
Qed.

#[local] Abbreviation host_emit :=
  (emit Host.ud_name Host.isalnum Host.isspace Host.upper).
#[local] Abbreviation host_replace_in_text :=
  (replace_in_text Host.ud_name Host.isalnum Host.isspace Host.upper).
#[local] Abbreviation host_looks_text := (looks_text Host.splitext Host.lower).
#[local] Abbreviation host_visit :=
  (visit Host.ud_name Host.isalnum Host.isspace Host.upper
     Host.splitext Host.lower Host.utf8_decode Host.utf8_encode).
#[local] Abbreviation host_visit_files :=
  (visit_files Host.ud_name Host.isalnum Host.isspace Host.upper
     Host.splitext Host.lower Host.utf8_decode Host.utf8_encode).
#[local] Abbreviation host_main :=
  (main Host.ud_name Host.isalnum Host.isspace Host.upper
     Host.splitext Host.lower Host.utf8_decode Host.utf8_encode
     (lit "/repo")).

(** The rocket followed by the variation selector, in UTF-8. *)
#[local] Abbreviation rocket_bytes :=
  ["240"; "159"; "154"; "128"; "239"; "184"; "143"]%byte.

(** The T-shirt U+1F455 is named T-SHIRT: the segment is [[TSHIRT]]. *)
Lemma emit_pictographic_witness :
  pictographic 0x1F455 = true
  /\ Py.get MAP [0x1F455] = None
  /\ (Host.ud_name 0x1F455 = None -> host_emit 0x1F455 = Some [[0x1F455]])
  /\ (forall name, Host.ud_name 0x1F455 = Some name ->
        exists t, host_emit 0x1F455 = Some [t] /\ bracket_token t = true).
Proof.
  split; [reflexivity|]. split; [reflexivity|].
  apply (emit_pictographic _ _ _ _ Host_tables 0x1F455); reflexivity.
Defined.

(** C1 as it is stated fails on U+1F02C, a code point of the first range
    that is not assigned and so has no name: the transformer emits the
    character itself, which is neither [[SYM]] nor a bracketed token. *)
Lemma unnamed_pictograph_is_kept :
  pictographic 0x1F02C = true
  /\ Py.get MAP [0x1F02C] = None
  /\ Host.ud_name 0x1F02C = None
  /\ host_emit 0x1F02C = Some [[0x1F02C]]
  /\ host_replace_in_text [0x1F02C] = Some [0x1F02C]
  /\ [0x1F02C] <> lit "[SYM]"
  /\ bracket_token [0x1F02C] = false.
Proof. repeat split; try reflexivity. discriminate. Qed.

Lemma replace_in_text_idempotent_witness :
  exists out,
    host_replace_in_text [0x1F680; 0xFE0F; 0x1F02C; 0x41; 0x1F455] = Some out
    /\ host_replace_in_text out = Some out.
Proof.
  exact (replace_in_text_idempotent _ _ _ _ Host_tables
           [0x1F680; 0xFE0F; 0x1F02C; 0x41; 0x1F455]).
Defined.

Lemma replace_in_text_no_VS16_witness :
  exists out,
    host_replace_in_text [0xFE0F; 0x2122; 0xFE0F; 0x61] = Some out
    /\ ~ In VS16 out.
Proof.
  exact (replace_in_text_no_VS16 _ _ _ _ Host_tables
           [0xFE0F; 0x2122; 0xFE0F; 0x61]).
Defined.

Lemma rocket_example_witness :
  Host.ud_name 0x1F680 = Some (lit "ROCKET")
  /\ Py.get MAP [0x1F680] = None
  /\ host_replace_in_text [0x1F680; 0xFE0F] = Some (lit "[ROCKET]")
  /\ ~ In VS16 (lit "[ROCKET]").
Proof.
  split; [reflexivity|].
  apply (rocket_example _ _ _ _ Host_tables). reflexivity.
Defined.

Lemma replace_in_text_pass_through_witness :
  host_replace_in_text (lit "abc 12") = Some (lit "abc 12").
Proof.
  apply replace_in_text_pass_through.
  - intros ch H. vm_compute in H.
    repeat (destruct H as [<-|H]; [reflexivity|]). destruct H.
  - assert (H : forallb (fun kv => negb (Py.contains (fst kv) (lit "abc 12")))
                  MAP = true) by (vm_compute; reflexivity).
    rewrite forallb_forall in H. intros k v Hin.
    apply H in Hin. apply negb_true_iff in Hin. exact Hin.
  - intros ch H. vm_compute in H.
    repeat (destruct H as [<-|H]; [reflexivity|]). destruct H.
Defined.

(** [README.MD] is text by its extension, [logo.PNG] binary by its
    extension; [Makefile] is sniffed. *)
Lemma looks_text_cases_witness :
  host_looks_text (lit "/repo/README.MD") None = true
  /\ host_looks_text (lit "/repo/logo.PNG") (Some []) = false
  /\ host_looks_text (lit "/repo/Makefile") None = false
  /\ (host_looks_text (lit "/repo/Makefile") (Some ["a"; "000"]%byte) = false
      <-> exists i, (i < 2048)%nat
                    /\ nth_error ["a"; "000"]%byte i = Some x00).
Proof.
  pose proof (looks_text_cases Host.splitext Host.lower
                (lit "/repo/README.MD") None) as (H1 & _).
  pose proof (looks_text_cases Host.splitext Host.lower
                (lit "/repo/logo.PNG") (Some [])) as (_ & H2 & _).
  pose proof (looks_text_cases Host.splitext Host.lower
                (lit "/repo/Makefile") None) as (_ & _ & H3).
  split; [apply H1; reflexivity|].
  split; [apply H2; reflexivity|].
  destruct (H3 eq_refl eq_refl) as (H4 & H5).
  split; [exact H4|]. apply (H5 ["a"; "000"]%byte).
Defined.

Lemma Host_odd_tables :
  unicode_tables Host.ud_name_odd Host.isalnum Host.isspace Host.upper.
Proof.
  split; try reflexivity.
  - intros c n H. unfold Host.ud_name_odd in H.
    destruct (c =? 0x2600); inversion_clear H.
    apply Forall_forall. intros x Hx.
    unfold is_ascii. vm_compute in Hx.
    repeat (destruct Hx as [<-|Hx]; [lia|]). destruct Hx.
  - intros c n H. unfold Host.ud_name_odd in H.
    destruct (c =? 0x2600); inversion_clear H.
    eexists. split; [left; reflexivity | reflexivity].
Qed.

Lemma replace_in_text_complete_witness :
  exists out,
    host_replace_in_text [0x1F680; 0x1F02C; 0x2122] = Some out
    /\ forall ch, In ch out -> pictographic ch = true ->
                  Host.ud_name ch = None.
Proof.
  exact (replace_in_text_complete _ _ _ _ Host_tables
           [0x1F680; 0x1F02C; 0x2122]).
Defined.

Lemma fallback_SYM_witness :
  fallback Host.ud_name_odd Host.isalnum Host.isspace Host.upper 0x2600
  = Some (lit "[SYM]").
Proof.
  apply (fallback_SYM _ _ _ _ Host_odd_tables 0x2600
           (lit "-- SUN") (lit "--") [lit "SUN"]); reflexivity.
Defined.

Lemma looks_text_bin_exts_witness :
  host_looks_text (lit "/repo/logo.PNG") (Some ["a"; "b"]%byte) = false.
Proof.
  apply looks_text_bin_exts. reflexivity.
Defined.

Lemma looks_text_without_NUL_witness :
  host_looks_text (lit "/repo/LICENSE") (Some [])
  = negb (Py.mem (Host.lower (snd (Host.splitext (lit "/repo/LICENSE"))))
            bin_exts).
Proof.
  apply looks_text_without_NUL. intros [|i] _; discriminate.
Defined.

Lemma replace_in_text_ascii_witness :
  exists out,
    host_replace_in_text [0x41; 0xFE0F; 0x1F680] = Some out
    /\ Forall is_ascii out.
Proof.
  apply (replace_in_text_ascii _ _ _ _ Host_tables).
  intros ch [<-|[<-|[<-|[]]]].
  - left. unfold is_ascii. lia.
  - right. left. reflexivity.
  - right. right. split; [reflexivity | discriminate].
Defined.

(** ** The walker on the ASCII fragment *)

#[local] Abbreviation host_scannable :=
  (scannable Host.splitext Host.lower Host.utf8_decode).
#[local] Abbreviation host_rewritable :=
  (rewritable Host.ud_name Host.isalnum Host.isspace Host.upper
     Host.splitext Host.lower Host.utf8_decode).
#[local] Abbreviation host_round_trip :=
  (codec_round_trip Host.ud_name Host.isalnum Host.isspace Host.upper
     Host.utf8_decode Host.utf8_encode).

(** A file with the rocket, and what the script makes of it. *)
#[local] Abbreviation rocket := (Inode (Some rocket_bytes) true 0).
#[local] Abbreviation rewritten :=
  (Inode (Some (Host.utf8_encode (lit "[ROCKET]"))) true 1).

(** A small repository: a file to rewrite, a picture, a file that is not
    UTF-8, and the directories [node_modules] and [src]; and its disk. *)
#[local] Abbreviation small_repository :=
  (Dir []
     [(lit "a.md", 0%nat); (lit "b.png", 1%nat); (lit "c", 2%nat)]
     [Dir (lit "node_modules") [(lit "a.md", 3%nat)] [];
      Dir (lit "src") [(lit "a.md", 4%nat)] []]).
#[local] Abbreviation small_disk :=
  [rocket; Inode (Some ["000"]%byte) true 0;
   Inode (Some ["255"]%byte) true 0; rocket; rocket].

(** The same tree with one more name in the root: [link.md], a link to
    the file [node_modules/a.md]. *)
#[local] Abbreviation linked_repository :=
  (Dir []
     [(lit "a.md", 0%nat); (lit "b.png", 1%nat); (lit "c", 2%nat);
      (lit "link.md", 3%nat)]
     [Dir (lit "node_modules") [(lit "a.md", 3%nat)] [];
      Dir (lit "src") [(lit "a.md", 4%nat)] []]).

(** A file that is not UTF-8, before a file that is. *)
Lemma unreadable_file_skipped_witness :
  let d := [Inode (Some ["255"]%byte) true 0; rocket] in
  let s := State 0 0 [] in
  host_visit (lit "/repo") [] (lit "notes", 0%nat) d s = Some (d, s)
  /\ forall rest,
      host_visit_files (lit "/repo") [] ((lit "notes", 0%nat) :: rest) d s =
      host_visit_files (lit "/repo") [] rest d s.
Proof.
  intros d s.
  apply (unreadable_file_skipped Host.ud_name Host.isalnum Host.isspace
           Host.upper Host.splitext Host.lower Host.utf8_decode
           Host.utf8_encode (lit "/repo") [] (lit "notes") 0%nat d s);
    reflexivity.
Defined.



(** The root holds [a.md] and [src] and, in the hole, a pruned
    directory. *)
Lemma excluded_directory_not_entered_witness :
  let c := Here [] [(lit "a.md", 0%nat)]
             [Dir (lit "src") [(lit "b.md", 1%nat)] []] [] in
  let sub1 := Dir (lit "node_modules") [(lit "c.md", 2%nat)] [] in
  let sub2 := Dir (lit ".git") [] [] in
  let d := [rocket; rocket; rocket] in
  host_main (plug c sub1) d = host_main (plug c sub2) d
  /\ forall d' out code i,
      host_main (plug c sub1) d = Some (d', out, code) ->
      ~ In i (map inode_of (walked (lit "/repo") [] (plug c sub1))) ->
      nth_error d' i = nth_error d i.
Proof.
  intros c sub1 sub2 d.
  apply (excluded_directory_not_entered Host.ud_name Host.isalnum
           Host.isspace Host.upper Host.splitext Host.lower
           Host.utf8_decode Host.utf8_encode (lit "/repo") c sub1 sub2 d).
  - left. reflexivity.
  - right. reflexivity.
Defined.

(** C8 as it is stated fails where a path outside the pruned directory
    leads to a file inside it: [link.md] in the root is a link to
    [node_modules/a.md], the walk comes to [link.md], and the file is
    rewritten through it. *)
Lemma linked_file_is_rewritten :
  let t := Dir [] [(lit "link.md", 0%nat)]
             [Dir (lit "node_modules") [(lit "a.md", 0%nat)] []] in
  Py.mem (lit "node_modules") EXCLUDE_DIRS = true
  /\ host_main t [rocket]
     = Some ([rewritten],
             [lit "Rewrote: link.md";
              lit "Done. Updated 1 files (scanned 1)."], 0)
  /\ open_rb [rewritten] 0 <> open_rb [rocket] 0.
Proof. repeat split; try reflexivity. discriminate. Qed.

Lemma binary_file_skipped_witness :
  let d := [Inode (Some ["a"; "b"]%byte) true 0] in
  host_visit (lit "/repo") [] (lit "b.png", 0%nat) d (State 0 0 [])
  = Some (d, State 0 0 []).
Proof.
  intros d. apply binary_file_skipped. reflexivity.
Defined.

Lemma rewritten_iff_target_witness :
  let d := [rocket] in
  let visited := host_visit (lit "/repo") [] (lit "a.md", 0%nat) in
  let target_free :=
    forall ch, In ch [0x1F680; 0xFE0F] ->
               ch <> VS16
               /\ (pictographic ch = true -> Host.ud_name ch = None) in
  exists n,
    nth_error d 0 = Some n
    /\ ((exists s', visited d (State 0 0 []) = Some (d, s'))
        <-> target_free)
    /\ (visited d (State 0 0 []) = None
        <-> ~ target_free /\ iwritable n = false).
Proof.
  intros d visited target_free.
  apply (rewritten_iff_target Host.ud_name Host.isalnum Host.isspace
           Host.upper Host.splitext Host.lower Host.utf8_decode
           Host.utf8_encode Host_tables (lit "/repo") [] (lit "a.md")
           0%nat d (State 0 0 []) [0x1F680; 0xFE0F]); reflexivity.
Defined.

Lemma small_repository_run :
  host_main small_repository small_disk
  = Some ([rewritten; Inode (Some ["000"]%byte) true 0;
           Inode (Some ["255"]%byte) true 0; rocket; rewritten],
          [lit "Rewrote: a.md"; lit "Rewrote: src/a.md";
           lit "Done. Updated 2 files (scanned 2)."],
          0).
Proof. vm_compute. reflexivity. Qed.

Lemma main_output_witness :
  let W := walked (lit "/repo") [] small_repository in
  let R := filter (host_rewritable small_disk) W in
  let S := filter (host_scannable small_disk) W in
  0 = 0
  /\ [lit "Rewrote: a.md"; lit "Rewrote: src/a.md";
      lit "Done. Updated 2 files (scanned 2)."] =
     map rewrote_line R
     ++ [lit "Done. Updated " ++ str_of_nat (length R)
         ++ lit " files (scanned " ++ str_of_nat (length S) ++ lit ")."]
  /\ (length R <= length S)%nat.
Proof.
  apply (main_output Host.ud_name Host.isalnum Host.isspace Host.upper
           Host.splitext Host.lower Host.utf8_decode Host.utf8_encode
           (lit "/repo") small_repository small_disk
           [rewritten; Inode (Some ["000"]%byte) true 0;
            Inode (Some ["255"]%byte) true 0; rocket; rewritten]
           [lit "Rewrote: a.md"; lit "Rewrote: src/a.md";
            lit "Done. Updated 2 files (scanned 2)."] 0).
  - no_duplicates.
  - exact small_repository_run.
Defined.

Lemma main_frame_witness :
  let d' := [rewritten; Inode (Some ["000"]%byte) true 0;
             Inode (Some ["255"]%byte) true 0; rocket; rewritten] in
  length d' = length small_disk
  /\ (forall i,
         ~ In i (map inode_of (walked (lit "/repo") [] small_repository)) ->
         nth_error d' i = nth_error small_disk i)
  /\ (forall i n, nth_error small_disk i = Some n ->
                  exists n',
                    nth_error d' i = Some n'
                    /\ iwritable n' = iwritable n
                    /\ (idata n = None -> n' = n)).
Proof.
  exact (main_frame Host.ud_name Host.isalnum Host.isspace Host.upper
           Host.splitext Host.lower Host.utf8_decode Host.utf8_encode
           (lit "/repo") small_repository small_disk _ _ _
           small_repository_run).
Defined.

Lemma main_writes_witness :
  (writes [rewritten; Inode (Some ["000"]%byte) true 0;
           Inode (Some ["255"]%byte) true 0; rocket; rewritten] + 1
   = writes small_disk + 3)%nat.
Proof.
  exact (main_writes Host.ud_name Host.isalnum Host.isspace Host.upper
           Host.splitext Host.lower Host.utf8_decode Host.utf8_encode
           (lit "/repo") small_repository small_disk _ _ _
           small_repository_run).
Defined.

(** With the link: the file [node_modules/a.md] is rewritten through
    [link.md]. *)
Lemma linked_repository_run :
  host_main linked_repository small_disk
  = Some ([rewritten; Inode (Some ["000"]%byte) true 0;
           Inode (Some ["255"]%byte) true 0; rewritten; rewritten],
          [lit "Rewrote: a.md"; lit "Rewrote: link.md";
           lit "Rewrote: src/a.md";
           lit "Done. Updated 3 files (scanned 3)."],
          0).
Proof. vm_compute. reflexivity. Qed.

Lemma linked_repository_round_trip :
  Forall (host_round_trip small_disk)
    (walked (lit "/repo") [] linked_repository).
Proof.
  repeat constructor; intros text new_text Hread Hnew;
    vm_compute in Hread; try discriminate;
    injection Hread as <-; vm_compute in Hnew; injection Hnew as <-;
    reflexivity.
Qed.

Lemma main_again_witness :
  let after := [rewritten; Inode (Some ["000"]%byte) true 0;
                Inode (Some ["255"]%byte) true 0; rewritten; rewritten] in
  exists n,
    host_main linked_repository after =
    Some (after,
          [lit "Done. Updated " ++ str_of_nat 0
           ++ lit " files (scanned " ++ str_of_nat n ++ lit ")."],
          0).
Proof.
  intros after.
  apply (main_again Host.ud_name Host.isalnum Host.isspace Host.upper
           Host.splitext Host.lower Host.utf8_decode Host.utf8_encode
           (lit "/repo") Host_tables linked_repository small_disk after
           _ _ linked_repository_run linked_repository_round_trip).
Defined.

Lemma main_returns_witness :
  exists d' out, host_main linked_repository small_disk = Some (d', out, 0).
Proof.
  apply (main_returns Host.ud_name Host.isalnum Host.isspace Host.upper
           Host.splitext Host.lower Host.utf8_decode Host.utf8_encode
           (lit "/repo") Host_tables).
  repeat constructor.
Defined.
